(** * Anajak Image Studio: the client-side orchestration layer

    A shallow embedding of the item registry, the batch job runner, the
    activity log and the preset store found in [src/App.tsx],
    [src/components/EditTab.tsx], [src/components/PresetTab.tsx] and
    [src/services/geminiService.ts], together with the properties the
    specification states about them.

    Conventions of the embedding:
    - a JavaScript string is a [string]; a JavaScript [Set<string>] is a
      [gset string]; the [Map<string, EditResult>] is a [gmap string _];
      arrays are lists;
    - React state is a record; a handler is a function from the state it
      closes over to the state after its updates have been committed;
    - what a handler does to the outside world (revoking object URLs,
      calling the remote model, reporting through [alert]) is recorded in
      the returned value, so that it can be counted;
    - built-ins of the host ([String.prototype.trim], [toLowerCase],
      [crypto.randomUUID], [URL.createObjectURL], [Date.now],
      [JSON.parse]) are the fields of the class [Host]: every theorem
      holds whatever they compute. *)

From Stdlib Require Import ZArith Ascii.
From stdpp Require Import base list strings gmap sets pretty.

Set Warnings "-register-all,-clear-no-such-hyp".

(** ** The host environment *)

(** A JSON value, as [JSON.parse] produces it. An object keeps its keys in
    an association list. *)
Inductive JSON : Type :=
| JNull
| JBool (b : bool)
| JNumber (literal : string)
| JString (s : string)
| JArray (elements : list JSON)
| JObject (members : list (string * JSON)).

(** The built-ins the sources call. The [nat] argument of the three
    generators is the number of draws made before the call, so the n-th
    call returns the n-th value of an arbitrary stream. [JSON_parse]
    returns [None] where the built-in throws a [SyntaxError]. *)
Class Host := {
  trim : string → string;
  toLowerCase : string → string;
  randomUUID : nat → string;
  createObjectURL : nat → string;
  Date_now : nat → Z;
  JSON_parse : string → option JSON
}.

(** ** Data model *)

(** A browser [File]: the fields the sources read, and [data], the
    base64 text [FileReader.readAsDataURL] produces for its content
    (reading a registered file is taken to succeed). *)
Module File.
Record t := mk { name : string; size : N; type : string; data : string }.
End File.

(** [interface UploadedImage] of EditTab.tsx. *)
Module UploadedImage.
Record t := mk { id : string; file : File.t; url : string }.
End UploadedImage.

(** [interface EditResult] of EditTab.tsx; [error] is an optional field. *)
Module EditResult.
Record t := mk {
  originalUrl : string;
  editedUrls : list string;
  selectedEditedUrl : option string;
  error : option string
}.
End EditResult.

(** [interface Preset] of App.tsx. *)
Module Preset.
Record t := mk { title : string; prompt : string }.
End Preset.

(** [interface HistoryItem] of App.tsx, and the argument of [addToHistory]
    ([Omit<HistoryItem, 'id' | 'timestamp'>]). *)
Module HistoryItem.
Inductive kind := vision | generate | edit.
Record draft := mkDraft {
  d_type : kind;
  d_prompt : string;
  d_inputImages : option (list string);
  d_outputImages : option (list string);
  d_outputText : option string
}.
Record t := mk {
  id : string;
  timestamp : Z;
  type : kind;
  prompt : string;
  inputImages : option (list string);
  outputImages : option (list string);
  outputText : option string
}.
End HistoryItem.

(** The state of the [EditTab] component, one field per [useState]. *)
Record EditTabState := {
  prompt : string;
  uploadedImages : list UploadedImage.t;
  selectedImageIds : gset string;
  editResults : gmap string EditResult.t;
  loading : bool;
  progressMessage : string;
  error : string
}.

(** The part of the browser the registry acts on: [revoked] lists the
    arguments of every [URL.revokeObjectURL] call, oldest first, and
    [draws] counts the values taken from the generators of [Host]. *)
Record Browser := {
  revoked : list string;
  draws : nat
}.

Definition revokeObjectURL (u : string) (b : Browser) : Browser :=
  {| revoked := revoked b ++ [u]; draws := draws b |}.

(** ** The item registry (EditTab.tsx, lines 40-95) *)

(** [uploadedImages.forEach(img => URL.revokeObjectURL(img.url))]. *)
Definition revokeAll (imgs : list UploadedImage.t) (b : Browser) : Browser :=
  foldl (λ b' img, revokeObjectURL (UploadedImage.url img) b') b imgs.

(** The effect of lines 40-44, [useEffect(() => () => revokeAll, [uploadedImages])]:
    React runs the clean-up that the previous render registered, which
    closes over the previous array [prev], whenever a render sees another
    array object, and once more when the component unmounts. *)
Definition effectCleanup (prev : list UploadedImage.t) (b : Browser) : Browser :=
  revokeAll prev b.

Definition sameFile (f g : File.t) : bool :=
  bool_decide (File.name f = File.name g) && bool_decide (File.size f = File.size g).

Section Registry.
Context {host : Host}.

(** [.map(file => ({ id: crypto.randomUUID(), file, url: URL.createObjectURL(file) }))],
    with [k] draws made before. *)
Fixpoint mintImages (k : nat) (files : list File.t) : list UploadedImage.t :=
  match files with
  | [] => []
  | f :: rest =>
      UploadedImage.mk (randomUUID k) f (createObjectURL (S k))
        :: mintImages (S (S k)) rest
  end.

(** [handleImagesChange], lines 46-58. The filter compares every incoming
    file with the array the handler closes over; [setUploadedImages] is
    only called when something is left, and a new array makes React run
    the clean-up of the effect. *)
Definition handleImagesChange (files : list File.t)
    (st : EditTabState) (b : Browser) : EditTabState * Browser :=
  let fresh :=
    filter (λ f, existsb (λ img, sameFile (UploadedImage.file img) f)
                   (uploadedImages st) = false) files in
  let newImages := mintImages (draws b) fresh in
  let b1 := {| revoked := revoked b; draws := draws b + 2 * length fresh |} in
  match newImages with
  | [] => (st, b1)
  | _ :: _ =>
      ({| prompt := prompt st;
          uploadedImages := uploadedImages st ++ newImages;
          selectedImageIds := selectedImageIds st;
          editResults := editResults st;
          loading := loading st;
          progressMessage := progressMessage st;
          error := error st |},
       effectCleanup (uploadedImages st) b1)
  end.

End Registry.

(** [handleRemoveImage], lines 60-74. [prev.filter] always returns a new
    array, so the effect's clean-up runs after every call. *)
Definition handleRemoveImage (idToRemove : string)
    (st : EditTabState) (b : Browser) : EditTabState * Browser :=
  let prev := uploadedImages st in
  let b1 :=
    match find (λ img, bool_decide (UploadedImage.id img = idToRemove)) prev with
    | Some imageToRemove => revokeObjectURL (UploadedImage.url imageToRemove) b
    | None => b
    end in
  ({| prompt := prompt st;
      uploadedImages := filter (λ img, UploadedImage.id img ≠ idToRemove) prev;
      selectedImageIds := selectedImageIds st ∖ {[ idToRemove ]};
      editResults := editResults st;
      loading := loading st;
      progressMessage := progressMessage st;
      error := error st |},
   effectCleanup prev b1).

(** [handleClearAllImages], lines 76-80. *)
Definition handleClearAllImages
    (st : EditTabState) (b : Browser) : EditTabState * Browser :=
  let b1 := revokeAll (uploadedImages st) b in
  ({| prompt := prompt st;
      uploadedImages := [];
      selectedImageIds := ∅;
      editResults := editResults st;
      loading := loading st;
      progressMessage := progressMessage st;
      error := error st |},
   effectCleanup (uploadedImages st) b1).

Definition withSelection (s : gset string) (st : EditTabState) : EditTabState :=
  {| prompt := prompt st;
     uploadedImages := uploadedImages st;
     selectedImageIds := s;
     editResults := editResults st;
     loading := loading st;
     progressMessage := progressMessage st;
     error := error st |}.

(** [handleToggleSelection], lines 82-92. *)
Definition handleToggleSelection (i : string) (st : EditTabState) : EditTabState :=
  let prev := selectedImageIds st in
  withSelection (if decide (i ∈ prev) then prev ∖ {[ i ]} else prev ∪ {[ i ]}) st.

(** [handleSelectAll] and [handleDeselectAll], lines 94-95. *)
Definition handleSelectAll (st : EditTabState) : EditTabState :=
  withSelection (list_to_set (UploadedImage.id <$> uploadedImages st)) st.

Definition handleDeselectAll (st : EditTabState) : EditTabState :=
  withSelection ∅ st.

(** Unmounting the component runs the clean-up of the last effect. *)
Definition unmount (st : EditTabState) (b : Browser) : Browser :=
  effectCleanup (uploadedImages st) b.

(** ** The remote service (geminiService.ts) *)

(** The response of [ai.models.generateContent], as far as the sources
    read it. Every field of the SDK's types is optional; [text] is the
    value of the SDK's [text] accessor, [None] standing for [undefined]. *)
Module Gemini.
Record Blob := mkBlob { data : option string; mimeType : option string }.
Record Part := mkPart { partText : option string; inlineData : option Blob }.
Record Content := mkContent { parts : option (list Part) }.
Record Candidate := mkCandidate { content : option Content }.
Record Response := mkResponse {
  candidates : option (list Candidate);
  text : option string
}.
(** How the promise of [generateContent] settles. *)
Inductive Outcome := Rejects | Resolves (r : Response).
End Gemini.

(** A value caught by a [catch] clause: an [Error] object with its
    message, or anything else. *)
Inductive Thrown := ErrorObject (message : string) | NotAnError.

(** The result of an [async] function: the value it resolves with or the
    value it rejects with. *)
Inductive Settled (A : Type) := Fulfilled (a : A) | Threw (e : Thrown).
Arguments Fulfilled {A} a.
Arguments Threw {A} e.

(** [`${x}`] for an optional string. *)
Definition interpolate (x : option string) : string := default "undefined" x.

(** The body of the inner [forEach], lines 90-96: [None] when the
    evaluation throws ([mimeType] undefined under [.startsWith]). *)
Definition pushPart (images : list string) (part : Gemini.Part) : option (list string) :=
  match Gemini.inlineData part with
  | None => Some images
  | Some blob =>
      match Gemini.mimeType blob with
      | None => None
      | Some mime =>
          if String.prefix "image/" mime
          then Some (images ++ ["data:" +:+ mime +:+ ";base64," +:+ interpolate (Gemini.data blob)])
          else Some images
      end
  end.

Definition pushParts (images : list string) (ps : list Gemini.Part) : option (list string) :=
  foldl (λ acc part, acc ≫= λ imgs, pushPart imgs part) (Some images) ps.

(** [candidate.content?.parts?.forEach(...)]. *)
Definition pushCandidate (images : list string) (c : Gemini.Candidate) : option (list string) :=
  match Gemini.content c with
  | None => Some images
  | Some ct =>
      match Gemini.parts ct with
      | None => Some images
      | Some ps => pushParts images ps
      end
  end.

(** [response.candidates?.forEach(...)], starting from [images = []]. *)
Definition collectImages (r : Gemini.Response) : option (list string) :=
  match Gemini.candidates r with
  | None => Some []
  | Some cs => foldl (λ acc c, acc ≫= λ imgs, pushCandidate imgs c) (Some []) cs
  end.

Definition editFailure : string :=
  "Failed to edit the image. Please check your prompt and image and try again.".

Definition generateFailure : string :=
  "Failed to generate the image. Please check your prompt and try again.".

Definition analyzeFailure : string :=
  "Failed to get a response from the AI. Please check the console for details.".

(** [editImageWithText], lines 76-108, given how the remote call settles.
    Whatever is thrown inside the [try], the [catch] throws a new [Error]
    with the fixed message. *)
Definition editImageWithText (o : Gemini.Outcome) : Settled (list string) :=
  match o with
  | Gemini.Rejects => Threw (ErrorObject editFailure)
  | Gemini.Resolves response =>
      match collectImages response with
      | None => Threw (ErrorObject editFailure)
      | Some [] => Threw (ErrorObject editFailure)
      | Some images => Fulfilled images
      end
  end.

(** [generateImageFromText], lines 44-74: the same collection. *)
Definition generateImageFromText (o : Gemini.Outcome) : Settled (list string) :=
  match o with
  | Gemini.Rejects => Threw (ErrorObject generateFailure)
  | Gemini.Resolves response =>
      match collectImages response with
      | None => Threw (ErrorObject generateFailure)
      | Some [] => Threw (ErrorObject generateFailure)
      | Some images => Fulfilled images
      end
  end.

(** [generateTextFromImageAndText], lines 28-42: [return response.text],
    whatever it is. *)
Definition generateTextFromImageAndText (o : Gemini.Outcome) : Settled (option string) :=
  match o with
  | Gemini.Rejects => Threw (ErrorObject analyzeFailure)
  | Gemini.Resolves response => Fulfilled (Gemini.text response)
  end.

(** [fileToDataUrl], lines 20-26: the data URL of the file's content, as
    [FileReader.readAsDataURL] writes it; a file without a type is
    written as [application/octet-stream]. *)
Definition fileToDataUrl (f : File.t) : string :=
  "data:"
  +:+ (if bool_decide (File.type f = "") then "application/octet-stream" else File.type f)
  +:+ ";base64," +:+ File.data f.

(** ** The batch job runner (EditTab.tsx, lines 97-143) *)

(** What [handleSubmit] does, in the order it does it: the state setters
    it calls, the remote call it awaits, and the calls of [addToHistory]. *)
Inductive Event :=
| SetLoading (b : bool)
| SetError (msg : string)
| SetEditResults (m : gmap string EditResult.t)
| SetProgressMessage (msg : string)
| RemoteCall (instruction : string) (image : File.t)
| AddToHistory (item : HistoryItem.draft).

Definition validationMessage : string :=
  "Please select at least one image and provide editing instructions.".

Definition unknownError : string := "An unknown error occurred".

(** [err instanceof Error ? err.message : 'An unknown error occurred']. *)
Definition errorMessage (e : Thrown) : string :=
  match e with
  | ErrorObject message => message
  | NotAnError => unknownError
  end.

(** [resultUrls[0] || null]: an empty string is falsy. *)
Definition firstOrNull (resultUrls : list string) : option string :=
  match resultUrls with
  | [] => None
  | u :: _ => if decide (u = "") then None else Some u
  end.

Definition progressOf (i total : nat) (image : UploadedImage.t) : string :=
  "Editing image " +:+ pretty (i + 1) +:+ " of " +:+ pretty total +:+ ": "
    +:+ File.name (UploadedImage.file image).

(** One turn of the [for] loop, lines 114-137, for the item [image] at
    index [i]: the events of the turn and the entry stored under the
    item's id. [remote i] is how the remote call of this turn settles. *)
Definition editOne (remote : nat → Gemini.Outcome) (trimmedPrompt : string)
    (total i : nat) (image : UploadedImage.t) : list Event * EditResult.t :=
  let f := UploadedImage.file image in
  match editImageWithText (remote i) with
  | Fulfilled resultUrls =>
      ([SetProgressMessage (progressOf i total image);
        RemoteCall trimmedPrompt f;
        AddToHistory
          (HistoryItem.mkDraft HistoryItem.edit trimmedPrompt
             (Some [fileToDataUrl f]) (Some resultUrls) None)],
       EditResult.mk (UploadedImage.url image) resultUrls (firstOrNull resultUrls) None)
  | Threw err =>
      ([SetProgressMessage (progressOf i total image);
        RemoteCall trimmedPrompt f],
       EditResult.mk (UploadedImage.url image) [] None (Some (errorMessage err)))
  end.

(** The [for] loop from index [i] on, over the items left to process, with
    the local [newResults] map as accumulator. *)
Fixpoint editLoop (remote : nat → Gemini.Outcome) (trimmedPrompt : string)
    (total i : nat) (images : list UploadedImage.t)
    (newResults : gmap string EditResult.t)
    : list Event * gmap string EditResult.t :=
  match images with
  | [] => ([], newResults)
  | image :: rest =>
      let '(evs, entry) := editOne remote trimmedPrompt total i image in
      let '(evs', final) :=
        editLoop remote trimmedPrompt total (S i) rest
          (<[UploadedImage.id image := entry]> newResults) in
      (evs ++ evs', final)
  end.

(** [uploadedImages.filter(img => selectedImageIds.has(img.id))]. *)
Definition selectedImages (st : EditTabState) : list UploadedImage.t :=
  filter (λ img, UploadedImage.id img ∈ selectedImageIds st) (uploadedImages st).

Section Runner.
Context {host : Host}.

(** [handleSubmit]: every event of one run, oldest first. *)
Definition handleSubmit (remote : nat → Gemini.Outcome) (st : EditTabState) : list Event :=
  let trimmedPrompt := trim (prompt st) in
  if bool_decide (trimmedPrompt = "") || bool_decide (size (selectedImageIds st) = 0)
  then [SetError validationMessage]
  else
    let images := selectedImages st in
    let '(evs, newResults) := editLoop remote trimmedPrompt (length images) 0 images ∅ in
    [SetLoading true; SetError ""; SetEditResults ∅;
     SetProgressMessage "Preparing to edit..."]
    ++ evs
    ++ [SetEditResults newResults; SetLoading false; SetProgressMessage ""].

(** The application around the tab: the two persisted stores of App.tsx,
    the tab's own state and the number of draws from the generators. *)
Record App := {
  presets : list Preset.t;
  history : list HistoryItem.t;
  editTab : EditTabState;
  ticks : nat
}.

(** [addToHistory], App.tsx lines 91-98. *)
Definition addToHistory (item : HistoryItem.draft) (a : App) : App :=
  let newHistoryItem :=
    HistoryItem.mk (randomUUID (ticks a)) (Date_now (S (ticks a)))
      (HistoryItem.d_type item) (HistoryItem.d_prompt item)
      (HistoryItem.d_inputImages item) (HistoryItem.d_outputImages item)
      (HistoryItem.d_outputText item) in
  {| presets := presets a;
     history := newHistoryItem :: history a;
     editTab := editTab a;
     ticks := S (S (ticks a)) |}.

Definition withEditTab (f : EditTabState → EditTabState) (a : App) : App :=
  {| presets := presets a; history := history a;
     editTab := f (editTab a); ticks := ticks a |}.

(** The state after one event. *)
Definition applyEvent (a : App) (e : Event) : App :=
  match e with
  | SetLoading b =>
      withEditTab (λ st, {| prompt := prompt st; uploadedImages := uploadedImages st;
        selectedImageIds := selectedImageIds st; editResults := editResults st;
        loading := b; progressMessage := progressMessage st; error := error st |}) a
  | SetError msg =>
      withEditTab (λ st, {| prompt := prompt st; uploadedImages := uploadedImages st;
        selectedImageIds := selectedImageIds st; editResults := editResults st;
        loading := loading st; progressMessage := progressMessage st; error := msg |}) a
  | SetEditResults m =>
      withEditTab (λ st, {| prompt := prompt st; uploadedImages := uploadedImages st;
        selectedImageIds := selectedImageIds st; editResults := m;
        loading := loading st; progressMessage := progressMessage st; error := error st |}) a
  | SetProgressMessage msg =>
      withEditTab (λ st, {| prompt := prompt st; uploadedImages := uploadedImages st;
        selectedImageIds := selectedImageIds st; editResults := editResults st;
        loading := loading st; progressMessage := msg; error := error st |}) a
  | RemoteCall _ _ => a
  | AddToHistory item => addToHistory item a
  end.

Definition applyEvents (a : App) (evs : list Event) : App := foldl applyEvent a evs.

(** A whole run of [handleSubmit] from the application state [a]. *)
Definition runSubmit (remote : nat → Gemini.Outcome) (a : App) : App :=
  applyEvents a (handleSubmit remote (editTab a)).

End Runner.

Definition isRemoteCall (e : Event) : bool :=
  match e with RemoteCall _ _ => true | _ => false end.

(** The remote calls among the events. *)
Definition remoteCalls (evs : list Event) : list Event := List.filter isRemoteCall evs.

(** ** The preset store (PresetTab.tsx, EditTab.tsx lines 155-175, App.tsx lines 30-56) *)

(** The state of the [PresetTab] component. *)
Record PresetTabState := {
  newPreset : Preset.t;
  formError : string
}.

Definition requiredMessage : string := "Both title and instructions are required.".
Definition titleTaken : string := "A preset with this title already exists.".
Definition promptTaken : string := "A preset with these instructions already exists.".

Section Presets.
Context {host : Host}.

(** [presets.some(p => p.title.toLowerCase() === trimmedTitle.toLowerCase())]. *)
Definition titleExists (ps : list Preset.t) (trimmedTitle : string) : bool :=
  existsb (λ p, bool_decide (toLowerCase (Preset.title p) = toLowerCase trimmedTitle)) ps.

(** [presets.some(p => p.prompt === trimmedPrompt)]. *)
Definition promptExists (ps : list Preset.t) (trimmedPrompt : string) : bool :=
  existsb (λ p, bool_decide (Preset.prompt p = trimmedPrompt)) ps.

(** [handleAddPreset], PresetTab.tsx lines 16-37: the preset list and the
    component state after the form is submitted. *)
Definition handleAddPreset (ps : list Preset.t) (st : PresetTabState)
    : list Preset.t * PresetTabState :=
  let trimmedTitle := trim (Preset.title (newPreset st)) in
  let trimmedPrompt := trim (Preset.prompt (newPreset st)) in
  if bool_decide (trimmedTitle = "") || bool_decide (trimmedPrompt = "")
  then (ps, {| newPreset := newPreset st; formError := requiredMessage |})
  else if titleExists ps trimmedTitle
  then (ps, {| newPreset := newPreset st; formError := titleTaken |})
  else if promptExists ps trimmedPrompt
  then (ps, {| newPreset := newPreset st; formError := promptTaken |})
  else (Preset.mk trimmedTitle trimmedPrompt :: ps,
        {| newPreset := Preset.mk "" ""; formError := "" |}).

(** [handleSaveAsPreset], EditTab.tsx lines 155-175. [answer] is what
    [window.prompt] returns ([None] for [null]), asked only once the
    instruction is known to be non-empty; the second component lists the
    messages passed to [alert]. *)
Definition handleSaveAsPreset (ps : list Preset.t) (currentPrompt : string)
    (answer : option string) : list Preset.t * list string :=
  let trimmedPrompt := trim currentPrompt in
  if bool_decide (trimmedPrompt = "") then (ps, [])
  else
    match answer with
    | None => (ps, [])
    | Some title =>
        if bool_decide (title = "") || bool_decide (trim title = "") then (ps, [])
        else
          let trimmedTitle := trim title in
          if titleExists ps trimmedTitle then (ps, [titleTaken])
          else if promptExists ps trimmedPrompt then (ps, [promptTaken])
          else (Preset.mk trimmedTitle trimmedPrompt :: ps, [])
    end.

End Presets.

(** [handleDeletePreset], PresetTab.tsx lines 39-41. *)
Definition handleDeletePreset (ps : list Preset.t) (presetToDelete : Preset.t) : list Preset.t :=
  filter (λ p, Preset.title p ≠ Preset.title presetToDelete) ps.

(** [initialPresets], App.tsx lines 30-36. *)
Definition initialPresets : list Preset.t :=
  [ Preset.mk "Vintage" "Make it vintage";
    Preset.mk "Cinematic" "Add cinematic lighting";
    Preset.mk "High Contrast" "Increase contrast";
    Preset.mk "B&W" "Convert to black and white";
    Preset.mk "Dreamy" "Add a dreamlike glow" ].

(** ** Loading the two stores (App.tsx, lines 40-72) *)

(** What [localStorage.getItem] does: throw, return [null], or return the
    saved text. *)
Inductive Stored := Unavailable | Missing | Saved (s : string).

(** A typed preset as the untyped value the state holds at run time. *)
Definition presetToJSON (p : Preset.t) : JSON :=
  JObject [("title", JString (Preset.title p)); ("prompt", JString (Preset.prompt p))].

(** [typeof item === 'object' && item !== null]. *)
Definition isObject (item : JSON) : bool :=
  match item with
  | JArray _ | JObject _ => true
  | JNull | JBool _ | JNumber _ | JString _ => false
  end.

(** [key in item] for the keys ['title'] and ['prompt'], which neither an
    array nor a prototype has: only an object's own members count. *)
Definition hasKey (key : string) (item : JSON) : bool :=
  match item with
  | JObject members => existsb (λ kv, bool_decide (kv.1 = key)) members
  | _ => false
  end.

Definition presetShaped (item : JSON) : bool :=
  isObject item && hasKey "title" item && hasKey "prompt" item.

Section Load.
Context {host : Host}.

(** The initialiser of the [presets] state, App.tsx lines 40-56. A saved
    text that is the empty string is falsy. *)
Definition loadPresets (r : Stored) : list JSON :=
  match r with
  | Unavailable => presetToJSON <$> initialPresets
  | Missing => presetToJSON <$> initialPresets
  | Saved savedPresets =>
      if bool_decide (savedPresets = "") then presetToJSON <$> initialPresets
      else
        match JSON_parse savedPresets with
        | None => presetToJSON <$> initialPresets
        | Some (JArray parsedPresets) =>
            if forallb presetShaped parsedPresets then parsedPresets
            else presetToJSON <$> initialPresets
        | Some _ => presetToJSON <$> initialPresets
        end
  end.

(** The initialiser of the [history] state, App.tsx lines 58-72. *)
Definition loadHistory (r : Stored) : list JSON :=
  match r with
  | Unavailable => []
  | Missing => []
  | Saved savedHistory =>
      if bool_decide (savedHistory = "") then []
      else
        match JSON_parse savedHistory with
        | None => []
        | Some (JArray parsedHistory) => parsedHistory
        | Some _ => []
        end
  end.

End Load.

(** ** A host to evaluate with *)

(** An instance of [Host] on ASCII text, used where a statement is run on
    concrete values. *)
Fixpoint trimStart (s : string) : string :=
  match s with
  | String a rest => if Ascii.is_space a then trimStart rest else s
  | EmptyString => EmptyString
  end.

Definition asciiTrim (s : string) : string :=
  String.rev (trimStart (String.rev (trimStart s))).

Definition asciiLower (a : ascii) : ascii :=
  let n := nat_of_ascii a in
  if (65 <=? n) && (n <=? 90) then ascii_of_nat (n + 32) else a.

Fixpoint asciiToLowerCase (s : string) : string :=
  match s with
  | String a rest => String (asciiLower a) (asciiToLowerCase rest)
  | EmptyString => EmptyString
  end.

(** The few texts the examples parse. *)
Definition parseSample (s : string) : option JSON :=
  if bool_decide (s = "[]") then Some (JArray [])
  else if bool_decide (s = "[1]") then Some (JArray [JNumber "1"])
  else if bool_decide (s = "{}") then Some (JObject [])
  else if bool_decide (s = "null") then Some JNull
  else None.

Definition sampleHost : Host := {|
  trim := asciiTrim;
  toLowerCase := asciiToLowerCase;
  randomUUID := λ n, "uuid-" +:+ pretty n;
  createObjectURL := λ n, "blob:" +:+ pretty n;
  Date_now := λ n, Z.of_nat n;
  JSON_parse := parseSample
|}.

(** ** Sequences of registry operations *)

(** The state of a freshly mounted [EditTab] and a browser in which
    nothing has been revoked yet. *)
Definition initialEditTab : EditTabState := {|
  prompt := "";
  uploadedImages := [];
  selectedImageIds := ∅;
  editResults := ∅;
  loading := false;
  progressMessage := "";
  error := ""
|}.

Definition initialBrowser : Browser := {| revoked := []; draws := 0 |}.

(** The operations of the registry, named as the specification names them. *)
Inductive RegistryOp :=
| AddItems (files : list File.t)
| RemoveItem (i : string)
| ClearAll
| ToggleSelection (i : string)
| SelectAll
| DeselectAll.

Section Operations.
Context {host : Host}.

Definition step (s : EditTabState * Browser) (op : RegistryOp) : EditTabState * Browser :=
  match op with
  | AddItems files => handleImagesChange files s.1 s.2
  | RemoveItem i => handleRemoveImage i s.1 s.2
  | ClearAll => handleClearAllImages s.1 s.2
  | ToggleSelection i => (handleToggleSelection i s.1, s.2)
  | SelectAll => (handleSelectAll s.1, s.2)
  | DeselectAll => (handleDeselectAll s.1, s.2)
  end.

Definition runOps (s : EditTabState * Browser) (ops : list RegistryOp)
    : EditTabState * Browser :=
  foldl step s ops.

(** Every [ToggleSelection] of the sequence names an item that is
    registered when the operation runs, as a click on a rendered tile does. *)
Fixpoint togglesRegistered (s : EditTabState * Browser) (ops : list RegistryOp) : Prop :=
  match ops with
  | [] => True
  | op :: rest =>
      match op with
      | ToggleSelection i => i ∈ (UploadedImage.id <$> uploadedImages s.1)
      | _ => True
      end ∧ togglesRegistered (step s op) rest
  end.

End Operations.

(** The ids of the registered items, as a set. *)
Definition registeredIds (st : EditTabState) : gset string :=
  list_to_set (UploadedImage.id <$> uploadedImages st).

(** How many times [URL.revokeObjectURL] was called on the handle [u]. *)
Definition releases (u : string) (b : Browser) : nat :=
  length (filter (λ v, v = u) (revoked b)).

(** The (name, size) pair of a file, and the pairs of the registered
    items, in registry order. *)
Definition identity (f : File.t) : string * N := (File.name f, File.size f).

Definition identities (st : EditTabState) : list (string * N) :=
  identity <$> (UploadedImage.file <$> uploadedImages st).

(** ** Vocabulary for the statements about a run *)

(** How the transform settles on each item of a run that starts at index
    [i]: the item at index [j] receives the [j]-th remote response. *)
Fixpoint outcomesFrom (remote : nat → Gemini.Outcome) (i : nat)
    (items : list UploadedImage.t) : list (UploadedImage.t * Settled (list string)) :=
  match items with
  | [] => []
  | img :: rest => (img, editImageWithText (remote i)) :: outcomesFrom remote (S i) rest
  end.

(** The items on which the transform succeeded, with what it returned, in
    the order in which they completed. *)
Definition completed (os : list (UploadedImage.t * Settled (list string)))
    : list (UploadedImage.t * list string) :=
  omap (λ o, match o.2 with
             | Fulfilled urls => Some (o.1, urls)
             | Threw _ => None
             end) os.

(** [r] is the activity record of the successful edit [s] under the
    instruction [p]. *)
Definition recordsEdit (p : string) (r : HistoryItem.t)
    (s : UploadedImage.t * list string) : Prop :=
  HistoryItem.type r = HistoryItem.edit
  ∧ HistoryItem.prompt r = p
  ∧ HistoryItem.inputImages r = Some [fileToDataUrl (UploadedImage.file s.1)]
  ∧ HistoryItem.outputImages r = Some s.2
  ∧ HistoryItem.outputText r = None.


(** The four setter calls that open a run, lines 104-107. *)
Definition runPrologue : list Event :=
  [SetLoading true; SetError ""; SetEditResults ∅;
   SetProgressMessage "Preparing to edit..."].

(** The tab state with its [error] replaced. *)
Definition withError (msg : string) (st : EditTabState) : EditTabState :=
  {| prompt := prompt st; uploadedImages := uploadedImages st;
     selectedImageIds := selectedImageIds st; editResults := editResults st;
     loading := loading st; progressMessage := progressMessage st; error := msg |}.

(** ** Sample data *)

Definition sampleFile (n : string) (sz : N) : File.t := File.mk n sz "image/png" "AAAA".

(** Three registered items, as [handleImagesChange] mints them under
    [sampleHost] on a fresh tab. *)
Definition sampleImages : list UploadedImage.t :=
  [ UploadedImage.mk "uuid-0" (sampleFile "a.png" 10) "blob:1";
    UploadedImage.mk "uuid-2" (sampleFile "b.png" 20) "blob:3";
    UploadedImage.mk "uuid-4" (sampleFile "c.png" 30) "blob:5" ].

(** All three selected, and an instruction typed with spaces around it. *)
Definition sampleTab : EditTabState := {|
  prompt := "  make it sepia ";
  uploadedImages := sampleImages;
  selectedImageIds := {[ "uuid-0"; "uuid-2"; "uuid-4" ]};
  editResults := ∅;
  loading := false;
  progressMessage := "";
  error := ""
|}.

Definition sampleApp : App := {|
  presets := initialPresets;
  history := [];
  editTab := sampleTab;
  ticks := 6
|}.

(** A response that carries one PNG image. *)
Definition imageResponse (payload : string) : Gemini.Response :=
  Gemini.mkResponse
    (Some [Gemini.mkCandidate (Some (Gemini.mkContent (Some
       [Gemini.mkPart None (Some (Gemini.mkBlob (Some payload) (Some "image/png")))])))])
    None.

(** A remote service that succeeds on the first and third call and fails
    on the second. *)
Definition sampleRemote (i : nat) : Gemini.Outcome :=
  match i with
  | 1 => Gemini.Rejects
  | _ => Gemini.Resolves (imageResponse "BBBB")
  end.

(** ** Vocabulary for the statements about the stores *)

(** The sequence a persisted value denotes, when it is present, parses,
    and parses to an array. *)
Definition persistedSequence {host : Host} (r : Stored) : option (list JSON) :=
  match r with
  | Saved s =>
      match JSON_parse s with
      | Some (JArray l) => Some l
      | _ => None
      end
  | Unavailable | Missing => None
  end.

(** The conditions under which a preset of title [t] and instruction [p]
    collides with the list [ps] or is empty. *)
Definition refused {host : Host} (ps : list Preset.t) (t p : string) : Prop :=
  t = "" ∨ p = ""
  ∨ Exists (λ e, toLowerCase (Preset.title e) = toLowerCase t) ps
  ∨ Exists (λ e, Preset.prompt e = p) ps.

(** ** The result panel and the guards of the buttons (EditTab.tsx, lines 177-190 and 303-333) *)

(** Truthiness of a [string | null | undefined] value. *)
Definition truthy (x : option string) : bool :=
  match x with
  | Some s => negb (bool_decide (s = ""))
  | None => false
  end.


(** What the right-hand cell of a result shows, lines 303-333: the error
    text, the selected image with the thumbnails (shown when there is more
    than one output), or the notice that no image was returned. *)
Inductive ResultView :=
| ErrorBox (msg : string)
| EditedImage (selected : string) (thumbnails : list string)
| NoImageReturned.

Definition resultView (result : EditResult.t) : ResultView :=
  if truthy (EditResult.error result)
  then ErrorBox (default "" (EditResult.error result))
  else if (0 <? length (EditResult.editedUrls result))
          && truthy (EditResult.selectedEditedUrl result)
  then EditedImage (default "" (EditResult.selectedEditedUrl result))
         (if 1 <? length (EditResult.editedUrls result)
          then EditResult.editedUrls result else [])
  else NoImageReturned.

Section Guards.
Context {host : Host}.

(** [canSavePreset], line 189. *)
Definition canSavePreset (ps : list Preset.t) (st : EditTabState) : bool :=
  negb (bool_decide (trim (prompt st) = ""))
  && negb (promptExists ps (trim (prompt st))).

(** [canSubmit], line 190. *)
Definition canSubmit (st : EditTabState) : bool :=
  negb (loading st)
  && negb (bool_decide (trim (prompt st) = ""))
  && (0 <? size (selectedImageIds st)).

End Guards.

(** ** The vision tab (src/unnamed/part_000) *)

Module Vision.

(** The state of the [VisionTab] component; [response] holds whatever
    [setResponse] was given, [None] standing for [undefined]. *)
Record t := mk {
  prompt : string;
  imageFile : option File.t;
  imageUrl : option string;
  response : option string;
  loading : bool;
  error : string
}.

Definition initial : t := mk "" None None (Some "") false "".

Definition missingInput : string := "Please provide both an image and a prompt.".

(** The clean-up of the effect of lines 21-27, [if (imageUrl) revoke(imageUrl)],
    for the URL [old] the previous render closed over. *)
Definition cleanup (old : option string) (b : Browser) : Browser :=
  match old with
  | Some u => if truthy (Some u) then revokeObjectURL u b else b
  | None => b
  end.

Section Handlers.
Context {host : Host}.

(** [handleImageChange], lines 29-37. The effect depends on [imageUrl]:
    its clean-up runs when the new value differs from the old one. *)
Definition handleImageChange (files : list File.t) (v : t) (b : Browser) : t * Browser :=
  match files with
  | [] => (v, b)
  | file :: _ =>
      let u := createObjectURL (draws b) in
      let b1 := {| revoked := revoked b; draws := S (draws b) |} in
      (mk (prompt v) (Some file) (Some u) (Some "") (loading v) "",
       if decide (imageUrl v = Some u) then b1 else cleanup (imageUrl v) b1)
  end.

(** [handleDownloadResponse], lines 64-75: the object URL made for the
    download is revoked before the handler returns. *)
Definition handleDownloadResponse (v : t) (b : Browser) : Browser :=
  if truthy (response v)
  then revokeObjectURL (createObjectURL (draws b))
         {| revoked := revoked b; draws := S (draws b) |}
  else b.

(** Unmounting runs the clean-up of the last effect. *)
Definition unmount (v : t) (b : Browser) : Browser := cleanup (imageUrl v) b.

(** [handleSubmit], lines 39-62, given how the remote call settles: the
    state of the tab and of the application after it, and the remote
    calls it made. *)
Definition handleSubmit (o : Gemini.Outcome) (v : t) (a : App)
    : t * App * list (string * File.t) :=
  match imageFile v with
  | None => (mk (prompt v) (imageFile v) (imageUrl v) (response v) (loading v) missingInput, a, [])
  | Some file =>
      if bool_decide (prompt v = "")
      then (mk (prompt v) (imageFile v) (imageUrl v) (response v) (loading v) missingInput, a, [])
      else
        match generateTextFromImageAndText o with
        | Fulfilled result =>
            (mk (prompt v) (imageFile v) (imageUrl v) result false "",
             addToHistory
               (HistoryItem.mkDraft HistoryItem.vision (prompt v)
                  (Some [fileToDataUrl file]) None result) a,
             [(prompt v, file)])
        | Threw err =>
            (mk (prompt v) (imageFile v) (imageUrl v) (Some "") false (errorMessage err),
             a, [(prompt v, file)])
        end
  end.

(** The user's actions on the tab: choosing files, downloading the
    response, and submitting, with how the remote call settles. *)
Inductive Op :=
| ImageChange (files : list File.t)
| DownloadResponse
| Submit (o : Gemini.Outcome).

Definition step (s : t * App * Browser) (op : Op) : t * App * Browser :=
  match op with
  | ImageChange files =>
      (fst (handleImageChange files s.1.1 s.2), s.1.2,
       snd (handleImageChange files s.1.1 s.2))
  | DownloadResponse => (s.1, handleDownloadResponse s.1.1 s.2)
  | Submit o => ((handleSubmit o s.1.1 s.1.2).1, s.2)
  end.

Definition runOps (s : t * App * Browser) (ops : list Op) : t * App * Browser :=
  foldl step s ops.

End Handlers.
End Vision.

(** ** The history tab (the second component of EditTab.tsx, lines 353-564) *)

(** The [intervals] object of [formatRelativeTime], in the order [for..in]
    visits its keys. *)
Definition intervals : list (string * Z) :=
  [("year", 31536000); ("month", 2592000); ("day", 86400);
   ("hour", 3600); ("minute", 60)]%Z.

(** The [for..in] loop of [formatRelativeTime] over the intervals left. *)
Fixpoint firstInterval (seconds : Z) (l : list (string * Z)) : string :=
  match l with
  | [] => "Just now"
  | (key, len) :: rest =>
      let interval := (seconds / len)%Z in
      if (1 <=? interval)%Z
      then pretty interval +:+ " " +:+ key +:+ (if (1 <? interval)%Z then "s" else "") +:+ " ago"
      else firstInterval seconds rest
  end.

(** [formatRelativeTime], with [now] the value of [new Date().getTime()].
    Both times are integers within the range of [Date], as [Date.now]
    produces them, so that the text of a count is its decimal digits. *)
Definition formatRelativeTime (now timestamp : Z) : string :=
  let seconds := ((now - timestamp) / 1000)%Z in
  if (seconds <? 30)%Z then "Just now" else firstInterval seconds intervals.

(** [handleClearHistory]: [confirmed] is the answer of [window.confirm]. *)
Definition handleClearHistory (confirmed : bool) (h : list HistoryItem.t) : list HistoryItem.t :=
  if confirmed then [] else h.

(** ** Vocabulary for the statements about the service and the presets *)

(** Every part of a response, candidate after candidate. *)
Definition partsOf (r : Gemini.Response) : list Gemini.Part :=
  c ← default [] (Gemini.candidates r);
  match Gemini.content c with
  | Some ct => default [] (Gemini.parts ct)
  | None => []
  end.

(** The data URL of a part that carries an inline image. *)
Definition imageOfPart (part : Gemini.Part) : option string :=
  blob ← Gemini.inlineData part;
  mime ← Gemini.mimeType blob;
  if String.prefix "image/" mime
  then Some ("data:" +:+ mime +:+ ";base64," +:+ interpolate (Gemini.data blob))
  else None.

(** A part whose inline data has no [mimeType]. *)
Definition untypedBlob (part : Gemini.Part) : Prop :=
  ∃ blob, Gemini.inlineData part = Some blob ∧ Gemini.mimeType blob = None.

(** The uniqueness the preset handlers maintain: titles differ even when
    case is ignored, and instructions differ. *)
Definition presetsDistinct {host : Host} (ps : list Preset.t) : Prop :=
  NoDup ((λ e, toLowerCase (Preset.title e)) <$> ps) ∧ NoDup (Preset.prompt <$> ps).

(** The progress and remote-call events among the events of a run. *)
Definition isProgressOrCall (e : Event) : bool :=
  match e with
  | SetProgressMessage _ | RemoteCall _ _ => true
  | _ => false
  end.

(** The events the loop of [handleSubmit] is made of. *)
Definition isLoopEvent (e : Event) : bool :=
  match e with
  | SetProgressMessage _ | RemoteCall _ _ | AddToHistory _ => true
  | _ => false
  end.

(** The text "n unit(s) ago", with the plural for a count above one. *)
Definition relativeText (n : Z) (unit : string) : string :=
  pretty n +:+ " " +:+ unit +:+ (if (1 <? n)%Z then "s" else "") +:+ " ago".

(** * Properties *)

(** ** Item registry *)

Section RegistryFacts.
Context {host : Host}.

Lemma mintImages_files k files :
  UploadedImage.file <$> mintImages k files = files.
Proof.
  revert k. induction files as [|f rest IH]; intros k; simpl; [done|].
  by rewrite IH.
Qed.

Lemma mintImages_length k files : length (mintImages k files) = length files.
Proof. by rewrite <- (mintImages_files k files) at 2; rewrite length_fmap. Qed.

(** The registry after [handleImagesChange]: the items that were there,
    followed by one item per input file that matched none of them, in
    input order. *)
Lemma handleImagesChange_files files st b :
  UploadedImage.file <$> uploadedImages (handleImagesChange files st b).1
  = (UploadedImage.file <$> uploadedImages st)
    ++ filter (λ f, existsb (λ img, sameFile (UploadedImage.file img) f)
                      (uploadedImages st) = false) files.
Proof.
  unfold handleImagesChange.
  set (fresh := filter _ files).
  pose proof (mintImages_files (draws b) fresh) as Hf.
  destruct (mintImages (draws b) fresh) as [|img imgs] eqn:E; simpl.
  - simpl in Hf. by rewrite <- Hf, app_nil_r.
  - by rewrite fmap_app, Hf.
Qed.

End RegistryFacts.

Section DuplicateFiles.
Context {host : Host}.

Lemma identities_files st :
  identities st = identity <$> (UploadedImage.file <$> uploadedImages st).
Proof. done. Qed.

Lemma existsb_sameFile imgs f :
  existsb (λ img, sameFile (UploadedImage.file img) f) imgs = false ↔
  identity f ∉ identity <$> (UploadedImage.file <$> imgs).
Proof.
  induction imgs as [|img imgs IH]; simpl.
  - split; [intros _; apply not_elem_of_nil | done].
  - rewrite orb_false_iff, IH, not_elem_of_cons. unfold sameFile, identity.
    destruct (UploadedImage.file img) as [n1 s1 t1 d1], f as [n2 s2 t2 d2]; simpl.
    split.
    + intros [Hs Hn]. split; [|done]. intros [= -> ->].
      by rewrite !bool_decide_true in Hs.
    + intros [Hne Hn]. split; [|done].
      apply andb_false_iff. rewrite !bool_decide_eq_false.
      destruct (decide (n1 = n2)) as [->|]; [|by left].
      right. intros ->. by apply Hne.
Qed.

(** An input whose (name, size) is already registered is skipped: a batch
    made of such inputs only leaves the registry as it was. *)
Lemma handleImagesChange_known files st b :
  Forall (λ f, identity f ∈ identities st) files →
  uploadedImages (handleImagesChange files st b).1 = uploadedImages st.
Proof.
  intros Hall. unfold handleImagesChange.
  assert (filter (λ f, existsb (λ img, sameFile (UploadedImage.file img) f)
                         (uploadedImages st) = false) files = []) as ->.
  { induction Hall as [|f fs Hf _ IH]; [done|].
    rewrite filter_cons_False; [done|].
    rewrite existsb_sameFile, <- identities_files. by intros Hn. }
  done.
Qed.

(** When the files of one batch are pairwise different in (name, size),
    [handleImagesChange] keeps the stored pairs distinct. *)
Lemma handleImagesChange_distinct files st b :
  NoDup (identities st) →
  NoDup (identity <$> files) →
  NoDup (identities (handleImagesChange files st b).1).
Proof.
  intros Hst Hfiles.
  rewrite identities_files, handleImagesChange_files, fmap_app, <- identities_files.
  apply NoDup_app. split; [done|]. split.
  - intros x Hx Hin. apply list_elem_of_fmap in Hin as (f & -> & Hf).
    apply list_elem_of_filter in Hf as [Hf _].
    apply existsb_sameFile in Hf. by rewrite <- identities_files in Hf.
  - eapply sublist_NoDup; [exact Hfiles | apply fmap_sublist, sublist_filter].
Qed.

(** C4 (the defect): two files of one batch with the same name and size
    are both stored. The filter of [handleImagesChange] looks only at the
    items registered before the call, so on an empty registry the batch
    [[f; f]] yields two items with the identical (name, size) pair. *)
Theorem handleImagesChange_batch_duplicates (f : File.t) :
  identities (handleImagesChange [f; f] initialEditTab initialBrowser).1
  = [identity f; identity f].
Proof. reflexivity. Qed.

End DuplicateFiles.

(** The same on a concrete file: the stored pairs are not distinct. *)
Example duplicate_batch_stored :
  let f := File.mk "a.png" 10 "image/png" "AAAA" in
  identities (handleImagesChange (host := sampleHost) [f; f] initialEditTab initialBrowser).1
  = [("a.png", 10%N); ("a.png", 10%N)].
Proof. reflexivity. Qed.

(** ** Selection *)

Section Selection.
Context {host : Host}.

(** [handleToggleSelection] flips the membership of the id it is given and
    touches no other id, whether or not the id is registered. *)
Lemma handleToggleSelection_flips i j st :
  j ∈ selectedImageIds (handleToggleSelection i st) ↔
  (j = i ∧ i ∉ selectedImageIds st) ∨ (j ≠ i ∧ j ∈ selectedImageIds st).
Proof.
  unfold handleToggleSelection; simpl.
  destruct (decide (i ∈ selectedImageIds st)); set_solver.
Qed.

(** [handleRemoveImage] prunes the removed id from the selection. *)
Lemma handleRemoveImage_prunes i st b :
  i ∉ selectedImageIds (handleRemoveImage i st b).1.
Proof. simpl. set_solver. Qed.

Lemma registeredIds_handleImagesChange files st b :
  registeredIds st ⊆ registeredIds (handleImagesChange files st b).1.
Proof.
  unfold handleImagesChange, registeredIds.
  destruct (mintImages _ _); simpl; [done|].
  rewrite fmap_app, list_to_set_app_L. set_solver.
Qed.

Lemma registeredIds_handleRemoveImage i st b :
  registeredIds (handleRemoveImage i st b).1 = registeredIds st ∖ {[ i ]}.
Proof.
  unfold registeredIds; simpl. apply set_eq. intros j.
  rewrite elem_of_difference, !elem_of_list_to_set, !list_elem_of_fmap.
  split.
  - intros (img & -> & Hin). apply list_elem_of_filter in Hin as [Hne Hin].
    split; [by exists img | set_solver].
  - intros [(img & -> & Hin) Hne]. exists img. split; [done|].
    apply list_elem_of_filter. set_solver.
Qed.

Lemma step_keeps_selection_registered s op :
  selectedImageIds s.1 ⊆ registeredIds s.1 →
  match op with
  | ToggleSelection i => i ∈ (UploadedImage.id <$> uploadedImages s.1)
  | _ => True
  end →
  selectedImageIds (step s op).1 ⊆ registeredIds (step s op).1.
Proof.
  destruct s as [st b]. intros Hinv Hop. destruct op as [files|i| |i| |]; cbn [step fst snd].
  - pose proof (registeredIds_handleImagesChange files st b) as Hsub.
    assert (selectedImageIds (handleImagesChange files st b).1 = selectedImageIds st) as ->.
    { unfold handleImagesChange. by destruct (mintImages _ _). }
    set_solver.
  - rewrite registeredIds_handleRemoveImage. simpl in *. set_solver.
  - simpl. set_solver.
  - assert (i ∈ registeredIds st) by (unfold registeredIds; set_solver).
    intros j Hj. apply handleToggleSelection_flips in Hj.
    change (registeredIds (handleToggleSelection i st)) with (registeredIds st).
    simpl in Hinv. set_solver.
  - done.
  - simpl. set_solver.
Qed.

(** C5 (as amended): toggleSelection flips the membership of the id it
    is given in the selection set, whether or not the id names a
    registered item, and touches neither another id nor the registry.
    From a state whose selection lies within the registry, after every
    sequence of addItems, removeItem, clearAll, toggleSelection, selectAll
    and deselectAll in which each toggle names an item registered at that
    moment, the selection set is a subset of the registered ids; and
    removing an item after it leaves its id unselected. *)
Theorem selection_within_registry (ops : list RegistryOp) (s : EditTabState * Browser) :
  selectedImageIds s.1 ⊆ registeredIds s.1 →
  togglesRegistered s ops →
  selectedImageIds (runOps s ops).1 ⊆ registeredIds (runOps s ops).1
  ∧ (∀ i, i ∉ selectedImageIds (step (runOps s ops) (RemoveItem i)).1)
  ∧ (∀ st i j,
       j ∈ selectedImageIds (handleToggleSelection i st) ↔
       (j = i ∧ i ∉ selectedImageIds st) ∨ (j ≠ i ∧ j ∈ selectedImageIds st))
  ∧ (∀ st i, uploadedImages (handleToggleSelection i st) = uploadedImages st).
Proof.
  intros Hinv Hops. split; [|split; [|split]].
  - revert s Hinv Hops. induction ops as [|op rest IH]; intros s Hinv Hops; [done|].
    destruct Hops as [Hop Hrest]. simpl. apply IH; [|done].
    by apply step_keeps_selection_registered.
  - intros i. apply handleRemoveImage_prunes.
  - intros st i j. apply handleToggleSelection_flips.
  - done.
Qed.

End Selection.

Lemma selection_within_registry_witness :
  let s := (initialEditTab, initialBrowser) in
  let ops := [AddItems [sampleFile "a.png" 10; sampleFile "b.png" 20]; SelectAll;
              ToggleSelection "uuid-0"; RemoveItem "uuid-2"] in
  selectedImageIds s.1 ⊆ registeredIds s.1
  ∧ togglesRegistered (host := sampleHost) s ops
  ∧ selectedImageIds (runOps (host := sampleHost) s ops).1
    ⊆ registeredIds (runOps (host := sampleHost) s ops).1
  ∧ "uuid-0" ∈ selectedImageIds
                 (handleToggleSelection "uuid-0" (runOps (host := sampleHost) s ops).1)
  ∧ "ghost" ∈ selectedImageIds
                (handleToggleSelection "ghost" (runOps (host := sampleHost) s ops).1).
Proof.
  intros s ops.
  assert (selectedImageIds s.1 ⊆ registeredIds s.1) as H1 by done.
  assert (togglesRegistered (host := sampleHost) s ops) as H2.
  { vm_compute. repeat split. repeat constructor. }
  assert (selectedImageIds (runOps (host := sampleHost) s ops).1 = ∅) as Hnone
    by (vm_compute; reflexivity).
  destruct (selection_within_registry (host := sampleHost) ops s H1 H2)
    as (Hsub & _ & Hflip & _).
  split; [exact H1|]. split; [exact H2|]. split; [exact Hsub|].
  split; apply Hflip; left; (split; [reflexivity|]); rewrite Hnone; apply not_elem_of_empty.
Defined.

(** C5 (as stated) fails: toggling an id that names no registered item is
    not a no-op. On the freshly mounted tab, [handleToggleSelection "ghost"]
    selects ["ghost"], so the selection changes and is no longer a subset
    of the (empty) set of registered ids. *)
Lemma toggle_unknown_id_selects :
  let st := handleToggleSelection "ghost" initialEditTab in
  ("ghost" ∉ registeredIds initialEditTab)
  ∧ selectedImageIds st ≠ selectedImageIds initialEditTab
  ∧ ¬ (selectedImageIds st ⊆ registeredIds st).
Proof.
  cbn. split; [set_solver|]. split.
  - intros Heq. assert ("ghost" ∈ (∅ : gset string)) as Hin; [|set_solver].
    rewrite <- Heq. unfold handleToggleSelection. simpl. set_solver.
  - intros Hsub. specialize (Hsub "ghost").
    unfold handleToggleSelection, registeredIds in Hsub. simpl in Hsub. set_solver.
Qed.

(** ** Release of display handles *)

Section Handles.
Context {host : Host}.

Lemma releases_app u l1 l2 d1 d2 :
  releases u {| revoked := l1 ++ l2; draws := d1 |}
  = releases u {| revoked := l1; draws := d2 |} + releases u {| revoked := l2; draws := d2 |}.
Proof. unfold releases; simpl. by rewrite filter_app, length_app. Qed.

(** C3 (the defect): a handle is released twice. Register one file on a
    freshly mounted tab, then remove it: [handleRemoveImage] revokes the
    item's object URL in its updater, and the clean-up of the effect of
    lines 40-44, which closes over the array of the previous render,
    revokes it again when the new array is rendered. *)
Theorem remove_releases_twice (f : File.t) :
  let s1 := step (initialEditTab, initialBrowser) (AddItems [f]) in
  let s2 := step s1 (RemoveItem (randomUUID 0)) in
  uploadedImages s1.1 = [UploadedImage.mk (randomUUID 0) f (createObjectURL 1)]
  ∧ uploadedImages s2.1 = []
  ∧ revoked s2.2 = [createObjectURL 1; createObjectURL 1]
  ∧ releases (createObjectURL 1) s2.2 = 2.
Proof.
  set (img := UploadedImage.mk (randomUUID 0) f (createObjectURL 1)).
  assert (step (initialEditTab, initialBrowser) (AddItems [f])
          = ({| prompt := ""; uploadedImages := [img]; selectedImageIds := ∅;
                editResults := ∅; loading := false; progressMessage := "";
                error := "" |},
             {| revoked := []; draws := 2 |})) as -> by reflexivity.
  cbn -[filter]. rewrite bool_decide_true by done. cbn -[filter].
  rewrite filter_cons_False by (intros Hne; by apply Hne). rewrite filter_nil.
  repeat split. unfold releases. cbn -[filter].
  by rewrite !filter_cons_True by done.
Qed.

End Handles.

(** The handle of an item that stays registered is released as well, and
    by a [removeItem] that removes nothing: with two files registered,
    removing the first and then asking to remove it again revokes the
    second file's handle twice although the second item is never removed. *)
Example second_remove_releases_live_handle :
  let f := File.mk "a.png" 10 "image/png" "AAAA" in
  let g := File.mk "b.png" 20 "image/png" "BBBB" in
  let s := runOps (host := sampleHost) (initialEditTab, initialBrowser)
             [AddItems [f; g]; RemoveItem "uuid-0"; RemoveItem "uuid-0"] in
  UploadedImage.url <$> uploadedImages s.1 = ["blob:3"]
  ∧ revoked s.2 = ["blob:1"; "blob:1"; "blob:3"; "blob:3"].
Proof. vm_compute. done. Qed.

(** ** Batch job runner *)

Section RunnerFacts.
Context {host : Host}.

(** C2: a run started with an instruction that is empty after trimming,
    or with an empty selection, is refused. The handler's only action is
    to set [error] to the validation message: it makes no remote call,
    and the application state after it is the state before it with that
    one field replaced, so the job results (and the activity log, the
    registry, the selection, the presets) are as they were. *)
Theorem invalid_run_rejected (remote : nat → Gemini.Outcome) (a : App) :
  trim (prompt (editTab a)) = "" ∨ selectedImageIds (editTab a) = ∅ →
  handleSubmit remote (editTab a) = [SetError validationMessage]
  ∧ remoteCalls (handleSubmit remote (editTab a)) = []
  ∧ runSubmit remote a
    = {| presets := presets a; history := history a;
         editTab := withError validationMessage (editTab a); ticks := ticks a |}
  ∧ editResults (editTab (runSubmit remote a)) = editResults (editTab a)
  ∧ error (editTab (runSubmit remote a)) = validationMessage.
Proof.
  intros Hbad.
  assert (handleSubmit remote (editTab a) = [SetError validationMessage]) as Hevs.
  { unfold handleSubmit. destruct Hbad as [-> | ->]; [done|].
    rewrite size_empty, (bool_decide_true (0 = 0)) by done.
    by rewrite orb_true_r. }
  unfold runSubmit. rewrite Hevs. done.
Qed.

End RunnerFacts.

Lemma invalid_run_rejected_witness :
  let a := {| presets := initialPresets; history := [];
              editTab := withError "" (handleDeselectAll sampleTab); ticks := 0 |} in
  (trim (Host := sampleHost) (prompt (editTab a)) = "" ∨ selectedImageIds (editTab a) = ∅)
  ∧ handleSubmit (host := sampleHost) sampleRemote (editTab a)
    = [SetError validationMessage].
Proof.
  intros a. split; [right; reflexivity|].
  apply (invalid_run_rejected (host := sampleHost) sampleRemote a).
  right. reflexivity.
Defined.

(** *** What the transform returns *)

Lemma dataUrl_nonempty mime payload : "data:" +:+ mime +:+ ";base64," +:+ payload ≠ "".
Proof. done. Qed.

Lemma pushPart_nonempty images part images' :
  Forall (λ u, u ≠ "") images →
  pushPart images part = Some images' →
  Forall (λ u, u ≠ "") images'.
Proof.
  intros Himgs. unfold pushPart.
  destruct (Gemini.inlineData part) as [blob|]; [|by intros [= <-]].
  destruct (Gemini.mimeType blob) as [mime|]; [|done].
  destruct (String.prefix "image/" mime); intros [= <-]; [|done].
  apply Forall_app. split; [done|]. apply Forall_singleton, dataUrl_nonempty.
Qed.

Lemma pushParts_nonempty ps images images' :
  Forall (λ u, u ≠ "") images →
  pushParts images ps = Some images' →
  Forall (λ u, u ≠ "") images'.
Proof.
  unfold pushParts. revert images.
  induction ps as [|part ps IH]; intros images Himgs; simpl; [by intros [= <-]|].
  destruct (pushPart images part) as [imgs1|] eqn:E.
  - apply IH. by eapply pushPart_nonempty.
  - assert (foldl (λ acc part0, acc ≫= λ imgs, pushPart imgs part0) None ps = None) as ->
      by (clear; induction ps; done).
    done.
Qed.

Lemma pushCandidate_nonempty c images images' :
  Forall (λ u, u ≠ "") images →
  pushCandidate images c = Some images' →
  Forall (λ u, u ≠ "") images'.
Proof.
  intros Himgs. unfold pushCandidate.
  destruct (Gemini.content c) as [ct|]; [|by intros [= <-]].
  destruct (Gemini.parts ct) as [ps|]; [|by intros [= <-]].
  by apply pushParts_nonempty.
Qed.

Lemma collectImages_nonempty r images :
  collectImages r = Some images → Forall (λ u, u ≠ "") images.
Proof.
  unfold collectImages. destruct (Gemini.candidates r) as [cs|]; [|by intros [= <-]].
  assert (∀ acc, Forall (λ u, u ≠ "") acc →
            foldl (λ acc c, acc ≫= λ imgs, pushCandidate imgs c) (Some acc) cs = Some images →
            Forall (λ u, u ≠ "") images) as Hgen; [|by apply Hgen].
  induction cs as [|c cs IH]; intros acc Hacc; simpl; [by intros [= <-]|].
  destruct (pushCandidate acc c) as [acc'|] eqn:E.
  - apply IH. by eapply pushCandidate_nonempty.
  - assert (foldl (λ acc c0, acc ≫= λ imgs, pushCandidate imgs c0) None cs = None) as ->
      by (clear; induction cs; done).
    done.
Qed.

(** A fulfilled [editImageWithText] returns at least one image, and every
    image it returns is a non-empty string. *)
Lemma editImageWithText_fulfilled o urls :
  editImageWithText o = Fulfilled urls →
  ∃ u rest, urls = u :: rest ∧ Forall (λ v, v ≠ "") urls.
Proof.
  destruct o as [|r]; simpl; [done|].
  destruct (collectImages r) as [[|u rest]|] eqn:E; [done| |done].
  intros [= <-]. exists u, rest. split; [done|]. by eapply collectImages_nonempty.
Qed.

(** A rejected [editImageWithText] always carries the fixed message. *)
Lemma editImageWithText_threw o e :
  editImageWithText o = Threw e → e = ErrorObject editFailure.
Proof.
  destruct o as [|r]; simpl; [by intros [= <-]|].
  by destruct (collectImages r) as [[|u rest]|]; intros [= <-].
Qed.

Lemma firstOrNull_head u rest : u ≠ "" → firstOrNull (u :: rest) = Some u.
Proof. intros Hu. simpl. by destruct (decide (u = "")). Qed.

(** *** The loop of [handleSubmit] *)

Section LoopFacts.
Context {host : Host}.
Variable remote : nat → Gemini.Outcome.
Variable p : string.
Variable total : nat.

Lemma applyEvents_app (a : App) (evs1 evs2 : list Event) :
  applyEvents a (evs1 ++ evs2) = applyEvents (applyEvents a evs1) evs2.
Proof. unfold applyEvents. apply foldl_app. Qed.

Lemma editLoop_cons i img rest m :
  editLoop remote p total i (img :: rest) m
  = ((editOne remote p total i img).1
       ++ (editLoop remote p total (S i) rest
             (<[UploadedImage.id img := (editOne remote p total i img).2]> m)).1,
     (editLoop remote p total (S i) rest
        (<[UploadedImage.id img := (editOne remote p total i img).2]> m)).2).
Proof.
  simpl. destruct (editOne remote p total i img) as [evs entry]. simpl.
  by destruct (editLoop remote p total (S i) rest _).
Qed.

Lemma editLoop_dom images i m :
  dom (editLoop remote p total i images m).2
  = dom m ∪ list_to_set (UploadedImage.id <$> images).
Proof.
  revert i m. induction images as [|img rest IH]; intros i m.
  - simpl. set_solver.
  - rewrite editLoop_cons. cbn [snd]. rewrite IH, dom_insert_L, fmap_cons, list_to_set_cons.
    set_solver.
Qed.

Lemma editLoop_lookup_other images i m k :
  k ∉ UploadedImage.id <$> images →
  (editLoop remote p total i images m).2 !! k = m !! k.
Proof.
  revert i m. induction images as [|img rest IH]; intros i m Hk; [done|].
  rewrite editLoop_cons. cbn [snd]. rewrite fmap_cons in Hk.
  apply not_elem_of_cons in Hk as [Hne Hk].
  rewrite IH by done. by rewrite lookup_insert_ne.
Qed.

Lemma editLoop_lookup images i m j img :
  NoDup (UploadedImage.id <$> images) →
  images !! j = Some img →
  (editLoop remote p total i images m).2 !! UploadedImage.id img
  = Some (editOne remote p total (i + j) img).2.
Proof.
  revert i m j. induction images as [|x rest IH]; intros i m j Hnd Hj; [done|].
  rewrite editLoop_cons. cbn [snd]. rewrite fmap_cons in Hnd.
  apply NoDup_cons in Hnd as [Hx Hnd].
  destruct j as [|j]; simpl in Hj.
  - injection Hj as ->. rewrite editLoop_lookup_other by done.
    rewrite lookup_insert_eq. by rewrite Nat.add_0_r.
  - rewrite (IH (S i) _ j) by done. by rewrite Nat.add_succ_r.
Qed.

Lemma editOne_remoteCalls i img :
  remoteCalls (editOne remote p total i img).1 = [RemoteCall p (UploadedImage.file img)].
Proof. unfold editOne. by destruct (editImageWithText (remote i)). Qed.

(** Every item left to process gets its remote call, whatever happened to
    the items before it. *)
Lemma editLoop_remoteCalls images i m :
  remoteCalls (editLoop remote p total i images m).1
  = (λ img, RemoteCall p (UploadedImage.file img)) <$> images.
Proof.
  revert i m. induction images as [|img rest IH]; intros i m; [done|].
  rewrite editLoop_cons. cbn [fst]. unfold remoteCalls in *.
  rewrite List.filter_app, IH. fold (remoteCalls (editOne remote p total i img).1).
  by rewrite editOne_remoteCalls.
Qed.



(** The activity log after the events of the loop: one record in front
    for each item that succeeded, the latest first. *)
Lemma editLoop_history images i m a :
  ∃ recs,
    history (applyEvents a (editLoop remote p total i images m).1)
    = reverse recs ++ history a
    ∧ Forall2 (recordsEdit p) recs (completed (outcomesFrom remote i images)).
Proof.
  revert i m a. induction images as [|img rest IH]; intros i m a.
  - exists []. split; [done | constructor].
  - rewrite editLoop_cons. cbn [fst]. rewrite applyEvents_app.
    set (m1 := <[_ := _]> m).
    destruct (IH (S i) m1 (applyEvents a (editOne remote p total i img).1))
      as (recs & Hhist & Hrecs).
    rewrite Hhist. clear Hhist.
    unfold editOne. simpl. unfold completed. simpl.
    destruct (editImageWithText (remote i)) as [urls|e] eqn:E; simpl.
    + eexists (_ :: recs). rewrite reverse_cons, <- app_assoc. split; [done|].
      constructor; [|done]. by repeat split.
    + by exists recs.
Qed.

End LoopFacts.

(** *** A whole run *)

Section RunFacts.
Context {host : Host}.

(** The events of a run that passes validation: the prologue, the loop
    over the selected items, and the epilogue that publishes the map. *)
Lemma handleSubmit_valid remote st :
  trim (prompt st) ≠ "" →
  selectedImageIds st ≠ ∅ →
  handleSubmit remote st
  = runPrologue
    ++ (editLoop remote (trim (prompt st)) (length (selectedImages st)) 0 (selectedImages st) ∅).1
    ++ [SetEditResults
          (editLoop remote (trim (prompt st)) (length (selectedImages st)) 0 (selectedImages st) ∅).2;
        SetLoading false; SetProgressMessage ""].
Proof.
  intros Hp Hsel. unfold handleSubmit.
  rewrite (bool_decide_false (trim (prompt st) = "")) by done.
  rewrite (bool_decide_false (size (selectedImageIds st) = 0)).
  - simpl. by destruct (editLoop _ _ _ _ _ _).
  - intros Hsz. apply Hsel. by apply leibniz_equiv, size_empty_iff.
Qed.

Lemma selectedImages_NoDup st :
  NoDup (UploadedImage.id <$> uploadedImages st) →
  NoDup (UploadedImage.id <$> selectedImages st).
Proof.
  intros Hnd. eapply sublist_NoDup; [exact Hnd|].
  apply fmap_sublist, sublist_filter.
Qed.

(** When the selection lies within the registry and the ids are pairwise
    distinct, the run processes as many items as the selection has ids. *)
Lemma selectedImages_count st :
  NoDup (UploadedImage.id <$> uploadedImages st) →
  selectedImageIds st ⊆ registeredIds st →
  length (selectedImages st) = size (selectedImageIds st).
Proof.
  intros Hnd Hsub.
  rewrite <- (length_fmap UploadedImage.id).
  rewrite <- (size_list_to_set (C := gset string)) by by apply selectedImages_NoDup.
  f_equal. apply set_eq. intros i.
  rewrite elem_of_list_to_set, list_elem_of_fmap. split.
  - intros (img & -> & Hin). by apply list_elem_of_filter in Hin as [? _].
  - intros Hi. specialize (Hsub i Hi).
    unfold registeredIds in Hsub.
    rewrite elem_of_list_to_set, list_elem_of_fmap in Hsub.
    destruct Hsub as (img & -> & Hin). exists img. split; [done|].
    by apply list_elem_of_filter.
Qed.

(** C1: a batch run over the selected items, whose ids are pairwise
    distinct, is never cut short by a failure. Every selected item gets
    its remote call; the resulting map has exactly one entry per selected
    item; the entry of an item on which the transform threw has no
    outputs and a non-empty failure description; the entry of an item on
    which it succeeded has the returned outputs, of which there is at
    least one, no failure, and the first output as active output; and the
    activity log gains exactly one record per successful item, none for a
    failed one, the records of later items in front of those of earlier
    ones. *)
Theorem batch_run_partial_failure (remote : nat → Gemini.Outcome) (a : App) :
  trim (prompt (editTab a)) ≠ "" →
  selectedImageIds (editTab a) ≠ ∅ →
  NoDup (UploadedImage.id <$> uploadedImages (editTab a)) →
  length (remoteCalls (handleSubmit remote (editTab a)))
  = length (selectedImages (editTab a))
  ∧ size (editResults (editTab (runSubmit remote a)))
    = length (selectedImages (editTab a))
  ∧ dom (editResults (editTab (runSubmit remote a)))
    = list_to_set (UploadedImage.id <$> selectedImages (editTab a))
  ∧ (∀ j img, selectedImages (editTab a) !! j = Some img →
       match editImageWithText (remote j) with
       | Threw _ =>
           ∃ msg, msg ≠ ""
             ∧ editResults (editTab (runSubmit remote a)) !! UploadedImage.id img
               = Some (EditResult.mk (UploadedImage.url img) [] None (Some msg))
       | Fulfilled urls =>
           ∃ u rest, urls = u :: rest
             ∧ editResults (editTab (runSubmit remote a)) !! UploadedImage.id img
               = Some (EditResult.mk (UploadedImage.url img) urls (Some u) None)
       end)
  ∧ ∃ recs,
      history (runSubmit remote a) = reverse recs ++ history a
      ∧ Forall2 (recordsEdit (trim (prompt (editTab a)))) recs
          (completed (outcomesFrom remote 0 (selectedImages (editTab a)))).
Proof.
  intros Hp Hsel Hnd.
  pose proof (selectedImages_NoDup _ Hnd) as Hnd'.
  set (st := editTab a) in *. set (items := selectedImages st) in *.
  set (tp := trim (prompt st)) in *.
  assert (editResults (editTab (runSubmit remote a))
          = (editLoop remote tp (length items) 0 items ∅).2) as Hres.
  { unfold runSubmit. fold st. rewrite handleSubmit_valid by done.
    by rewrite !applyEvents_app. }
  rewrite Hres. split; [|split; [|split; [|split]]].
  - rewrite handleSubmit_valid by done. fold items tp. unfold remoteCalls.
    rewrite !List.filter_app. fold (remoteCalls (editLoop remote tp (length items) 0 items ∅).1).
    rewrite editLoop_remoteCalls. simpl. by rewrite app_nil_r, length_fmap.
  - rewrite <- size_dom, editLoop_dom, dom_empty_L, (left_id_L ∅ (∪)).
    rewrite size_list_to_set by done. by rewrite length_fmap.
  - by rewrite editLoop_dom, dom_empty_L, (left_id_L ∅ (∪)).
  - intros j img Hj.
    pose proof (editLoop_lookup remote tp (length items) items 0 ∅ j img Hnd' Hj) as Hlk.
    simpl in Hlk. rewrite Hlk. unfold editOne.
    destruct (editImageWithText (remote j)) as [urls|e] eqn:E; simpl.
    + apply editImageWithText_fulfilled in E as (u & rest & -> & Hne).
      exists u, rest. split; [done|]. rewrite firstOrNull_head; [done|].
      by apply Forall_cons in Hne as [? _].
    + apply editImageWithText_threw in E as ->. by exists editFailure.
  - unfold runSubmit. fold st. rewrite handleSubmit_valid by done. fold items tp.
    rewrite !applyEvents_app.
    destruct (editLoop_history remote tp (length items) items 0 ∅
                (applyEvents a runPrologue)) as (recs & Hhist & Hrecs).
    exists recs. split; [|done]. simpl. simpl in Hhist. by rewrite Hhist.
Qed.

End RunFacts.

Lemma batch_run_partial_failure_witness :
  trim (Host := sampleHost) (prompt (editTab sampleApp)) ≠ ""
  ∧ selectedImageIds (editTab sampleApp) ≠ ∅
  ∧ NoDup (UploadedImage.id <$> uploadedImages (editTab sampleApp))
  ∧ size (editResults (editTab (runSubmit (host := sampleHost) sampleRemote sampleApp)))
    = length (selectedImages (editTab sampleApp)).
Proof.
  assert (trim (Host := sampleHost) (prompt (editTab sampleApp)) ≠ "") as H1
    by (vm_compute; discriminate).
  assert (selectedImageIds (editTab sampleApp) ≠ ∅) as H2.
  { intros Heq. apply (f_equal size) in Heq. vm_compute in Heq. discriminate. }
  assert (NoDup (UploadedImage.id <$> uploadedImages (editTab sampleApp))) as H3.
  { apply (bool_decide_unpack _). vm_compute. exact I. }
  split; [exact H1|]. split; [exact H2|]. split; [exact H3|].
  apply (batch_run_partial_failure (host := sampleHost) sampleRemote sampleApp H1 H2 H3).
Defined.

(** The scenario of the specification, evaluated: three selected items,
    the transform failing on the second. Three entries, the second with
    the failure and no outputs, and two activity records, the record of
    the third item in front of the record of the first. *)
Example three_items_second_fails :
  let a' := runSubmit (host := sampleHost) sampleRemote sampleApp in
  let results := editResults (editTab a') in
  let png := "data:image/png;base64,BBBB" in
  size results = 3
  ∧ results !! "uuid-0" = Some (EditResult.mk "blob:1" [png] (Some png) None)
  ∧ results !! "uuid-2" = Some (EditResult.mk "blob:3" [] None (Some editFailure))
  ∧ results !! "uuid-4" = Some (EditResult.mk "blob:5" [png] (Some png) None)
  ∧ HistoryItem.inputImages <$> history a'
    = [Some ["data:image/png;base64,AAAA"]; Some ["data:image/png;base64,AAAA"]]
  ∧ HistoryItem.id <$> history a' = ["uuid-8"; "uuid-6"]
  ∧ HistoryItem.prompt <$> history a' = ["make it sepia"; "make it sepia"].
Proof. vm_compute. repeat split. Qed.

(** *** When the results are published *)

Section Publication.
Context {host : Host}.




End Publication.



(** ** Preset store *)

Section PresetFacts.
Context {host : Host}.

Lemma titleExists_spec ps t :
  titleExists ps t = true ↔
  Exists (λ e, toLowerCase (Preset.title e) = toLowerCase t) ps.
Proof.
  unfold titleExists. induction ps as [|e ps IH]; simpl.
  - split; [done | by intros ?%Exists_nil].
  - rewrite Exists_cons, orb_true_iff, IH, bool_decide_eq_true. done.
Qed.

Lemma promptExists_spec ps p :
  promptExists ps p = true ↔ Exists (λ e, Preset.prompt e = p) ps.
Proof.
  unfold promptExists. induction ps as [|e ps IH]; simpl.
  - split; [done | by intros ?%Exists_nil].
  - rewrite Exists_cons, orb_true_iff, IH, bool_decide_eq_true. done.
Qed.

(** The preset list after [handleAddPreset], by cases on [refused]. *)
Lemma handleAddPreset_presets ps st :
  let t := trim (Preset.title (newPreset st)) in
  let p := trim (Preset.prompt (newPreset st)) in
  (refused ps t p →
     (handleAddPreset ps st).1 = ps ∧ formError (handleAddPreset ps st).2 ≠ "")
  ∧ (¬ refused ps t p → (handleAddPreset ps st).1 = Preset.mk t p :: ps).
Proof.
  intros t p. unfold handleAddPreset, refused. fold t p.
  pose proof (titleExists_spec ps t) as Ht. pose proof (promptExists_spec ps p) as Hp.
  destruct (decide (t = "")) as [Ht0|Ht0].
  { rewrite (bool_decide_true (t = "")) by done. simpl. split; [done|]. intros Hn.
    destruct Hn. by left. }
  rewrite (bool_decide_false (t = "")) by done.
  destruct (decide (p = "")) as [Hp0|Hp0].
  { rewrite (bool_decide_true (p = "")) by done. simpl. split; [done|]. intros Hn.
    destruct Hn. right. by left. }
  rewrite (bool_decide_false (p = "")) by done. simpl.
  destruct (titleExists ps t) eqn:Et.
  { simpl. split; [done|]. intros Hn. destruct Hn. right. right. left. by apply Ht. }
  destruct (promptExists ps p) eqn:Ep.
  { simpl. split; [done|]. intros Hn. destruct Hn. right. right. right. by apply Hp. }
  simpl. split; [|done].
  intros [?|[?|[Hex|Hex]]]; [done|done| |].
  - apply Ht in Hex. congruence.
  - apply Hp in Hex. congruence.
Qed.

(** The preset list after [handleSaveAsPreset] is the one [handleAddPreset]
    computes from the same two texts: the two handlers accept and refuse
    the same inputs. *)
Lemma handleSaveAsPreset_same ps title instruction message :
  trim "" = "" →
  (handleSaveAsPreset ps instruction (Some title)).1
  = (handleAddPreset ps {| newPreset := Preset.mk title instruction;
                           formError := message |}).1.
Proof.
  intros Hempty. unfold handleSaveAsPreset, handleAddPreset. simpl.
  destruct (decide (trim instruction = "")) as [Hp0|Hp0].
  { rewrite !(bool_decide_true (trim instruction = "")) by done.
    by rewrite orb_true_r. }
  rewrite !(bool_decide_false (trim instruction = "")) by done.
  destruct (decide (title = "")) as [->|Hne].
  { rewrite Hempty. by rewrite !(bool_decide_true ("" = "")) by done. }
  rewrite (bool_decide_false (title = "")) by done. simpl.
  destruct (bool_decide (trim title = "")); simpl; [done|].
  destruct (titleExists ps (trim title)); [done|].
  by destruct (promptExists ps (trim instruction)).
Qed.

(** The decisions of [handleAddPreset], in the order it takes them. *)
Lemma handleAddPreset_table ps st :
  handleAddPreset ps st
  = let t := trim (Preset.title (newPreset st)) in
    let p := trim (Preset.prompt (newPreset st)) in
    if decide (t = "" ∨ p = "")
    then (ps, {| newPreset := newPreset st; formError := requiredMessage |})
    else if titleExists ps t
    then (ps, {| newPreset := newPreset st; formError := titleTaken |})
    else if promptExists ps p
    then (ps, {| newPreset := newPreset st; formError := promptTaken |})
    else (Preset.mk t p :: ps, {| newPreset := Preset.mk "" ""; formError := "" |}).
Proof.
  unfold handleAddPreset. cbv zeta.
  destruct (decide (_ ∨ _)) as [[Ht|Hp]|Hn].
  - by rewrite (bool_decide_true _ Ht).
  - rewrite (bool_decide_true _ Hp). by rewrite orb_true_r.
  - rewrite !bool_decide_false by (intros ?; apply Hn; auto). done.
Qed.

(** The decisions of [handleSaveAsPreset] once a title was entered, and
    what it passes to [alert]. *)
Lemma handleSaveAsPreset_table ps title instruction :
  trim "" = "" →
  handleSaveAsPreset ps instruction (Some title)
  = let t := trim title in
    let p := trim instruction in
    if decide (t = "" ∨ p = "") then (ps, [])
    else if titleExists ps t then (ps, [titleTaken])
    else if promptExists ps p then (ps, [promptTaken])
    else (Preset.mk t p :: ps, []).
Proof.
  intros Hempty. unfold handleSaveAsPreset. cbv zeta.
  destruct (decide (_ ∨ _)) as [[Ht|Hp]|Hn].
  - destruct (bool_decide (trim instruction = "")); [done|].
    rewrite (bool_decide_true _ Ht). by rewrite orb_true_r.
  - by rewrite (bool_decide_true _ Hp).
  - rewrite (bool_decide_false (trim instruction = "")) by (intros ?; apply Hn; auto).
    rewrite (bool_decide_false (title = "")).
    + rewrite (bool_decide_false (trim title = "")) by (intros ?; apply Hn; auto). done.
    + intros ->. apply Hn. left. done.
Qed.

(** C6 (as amended): a preset is added from the two texts after trimming.
    Through the preset form and through the job runner's save action
    alike, the addition is refused and the preset list left as it was
    when the trimmed title or the trimmed instruction is empty, when the
    trimmed title equals an existing title case-insensitively, or when the
    trimmed instruction equals an existing instruction exactly; otherwise
    the entry made of the trimmed title and the trimmed instruction is
    inserted at the front. A refusal is reported as a validation failure:
    the form shows the message for the first check that failed (fields
    required, title taken, instructions taken); the save action alerts
    that the title is taken or that the instructions are taken, and
    returns without a message when a field is empty after trimming. An
    accepted addition reports nothing and clears the form. *)
Theorem preset_addition_checked (ps : list Preset.t)
    (title instruction message : string) :
  trim "" = "" →
  let t := trim title in
  let p := trim instruction in
  let form := {| newPreset := Preset.mk title instruction; formError := message |} in
  (refused ps t p →
     (handleAddPreset ps form).1 = ps
     ∧ formError (handleAddPreset ps form).2 ≠ ""
     ∧ (handleSaveAsPreset ps instruction (Some title)).1 = ps)
  ∧ (¬ refused ps t p →
     (handleAddPreset ps form).1 = Preset.mk t p :: ps
     ∧ (handleSaveAsPreset ps instruction (Some title)).1 = Preset.mk t p :: ps)
  ∧ (t = "" ∨ p = "" →
     formError (handleAddPreset ps form).2 = requiredMessage
     ∧ (handleSaveAsPreset ps instruction (Some title)).2 = [])
  ∧ (t ≠ "" → p ≠ "" →
     Exists (λ e, toLowerCase (Preset.title e) = toLowerCase t) ps →
     formError (handleAddPreset ps form).2 = titleTaken
     ∧ (handleSaveAsPreset ps instruction (Some title)).2 = [titleTaken])
  ∧ (t ≠ "" → p ≠ "" →
     ¬ Exists (λ e, toLowerCase (Preset.title e) = toLowerCase t) ps →
     Exists (λ e, Preset.prompt e = p) ps →
     formError (handleAddPreset ps form).2 = promptTaken
     ∧ (handleSaveAsPreset ps instruction (Some title)).2 = [promptTaken])
  ∧ (¬ refused ps t p →
     (handleAddPreset ps form).2 = {| newPreset := Preset.mk "" ""; formError := "" |}
     ∧ (handleSaveAsPreset ps instruction (Some title)).2 = []).
Proof.
  intros Hempty t p form.
  rewrite (handleSaveAsPreset_table ps title instruction Hempty), handleAddPreset_table.
  cbv zeta. change (Preset.title (newPreset form)) with title.
  change (Preset.prompt (newPreset form)) with instruction. fold t p.
  pose proof (titleExists_spec ps t) as Ht. pose proof (promptExists_spec ps p) as Hp.
  unfold refused.
  destruct (decide (t = "" ∨ p = "")) as [He|Hne]; simpl.
  { repeat split; try done; intros; tauto. }
  assert (t ≠ "" ∧ p ≠ "") as [Ht0 Hp0] by tauto.
  destruct (titleExists ps t) eqn:Et; simpl.
  { assert (Exists (λ e, toLowerCase (Preset.title e) = toLowerCase t) ps) as Hex
      by by apply Ht.
    repeat split; try done; intros; tauto. }
  assert (¬ Exists (λ e, toLowerCase (Preset.title e) = toLowerCase t) ps) as Hnt.
  { intros Hex. apply Ht in Hex. congruence. }
  destruct (promptExists ps p) eqn:Ep; simpl.
  { assert (Exists (λ e, Preset.prompt e = p) ps) as Hex by by apply Hp.
    repeat split; try done; intros; tauto. }
  assert (¬ Exists (λ e, Preset.prompt e = p) ps) as Hnp.
  { intros Hex. apply Hp in Hex. congruence. }
  repeat split; try done; intros; tauto.
Qed.

End PresetFacts.

Lemma preset_addition_checked_witness :
  trim (Host := sampleHost) "" = ""
  ∧ handleAddPreset (host := sampleHost) initialPresets
      {| newPreset := Preset.mk " vintage " "Fade the colours"; formError := "" |}
    = (initialPresets,
       {| newPreset := Preset.mk " vintage " "Fade the colours"; formError := titleTaken |})
  ∧ handleSaveAsPreset (host := sampleHost) initialPresets "Fade the colours"
      (Some " vintage ")
    = (initialPresets, [titleTaken]).
Proof.
  assert (trim (Host := sampleHost) "" = "") as H0 by reflexivity.
  destruct (preset_addition_checked (host := sampleHost) initialPresets
              " vintage " "Fade the colours" "" H0)
    as (Hrefused & _ & _ & Htitle & _).
  assert (Exists (λ e, toLowerCase (Host := sampleHost) (Preset.title e)
                       = toLowerCase (Host := sampleHost)
                           (trim (Host := sampleHost) " vintage ")) initialPresets) as Hex
    by (apply Exists_cons_hd; vm_compute; reflexivity).
  destruct Hrefused as (Hps & _ & Hps'); [right; right; left; exact Hex|].
  destruct Htitle as [Herr Halert];
    [vm_compute; discriminate | vm_compute; discriminate | exact Hex |].
  split; [exact H0|]. split.
  - destruct (handleAddPreset (host := sampleHost) initialPresets _) as [ps' [np err]] eqn:E.
    simpl in Hps, Herr. subst ps' err. f_equal. f_equal.
    apply (f_equal (λ r, newPreset r.2)) in E. simpl in E. rewrite <- E.
    vm_compute. reflexivity.
  - destruct (handleSaveAsPreset (host := sampleHost) initialPresets _ _) as [ps' al].
    simpl in Hps', Halert. by subst.
Defined.

(** C6 (as stated) fails, in two ways. The handlers compare the trimmed
    texts, not the texts they are given: with the stored instruction
    [" X "] (a list that [loadPresets] accepts), adding the title ["B"]
    with the instruction [" X "], which equals the stored instruction
    exactly, is accepted by both handlers and the list grows. And the save
    action refuses a title that is empty after trimming without reporting
    anything: nothing is passed to [alert]. *)
Lemma untrimmed_duplicate_accepted :
  let ps := [Preset.mk "A" " X "] in
  let form := {| newPreset := Preset.mk "B" " X "; formError := "" |} in
  Exists (λ e, Preset.prompt e = Preset.prompt (newPreset form)) ps
  ∧ (handleAddPreset (host := sampleHost) ps form).1
    = [Preset.mk "B" "X"; Preset.mk "A" " X "]
  ∧ (handleSaveAsPreset (host := sampleHost) ps " X " (Some "B")).1
    = [Preset.mk "B" "X"; Preset.mk "A" " X "]
  ∧ trim (Host := sampleHost) "  " = ""
  ∧ handleSaveAsPreset (host := sampleHost) ps "Y" (Some "  ") = (ps, []).
Proof.
  cbv zeta. split; [by apply Exists_cons_hd|].
  split; [vm_compute; reflexivity|]. split; [vm_compute; reflexivity|].
  split; vm_compute; reflexivity.
Qed.

(** ** Loading the stores *)

Section LoadFacts.
Context {host : Host}.

(** C7: when the persisted value is absent, cannot be read or parsed, or
    does not parse to a sequence, neither initialiser fails: the activity
    log starts empty and the preset store starts with the five seed
    entries, which is not an empty list. *)
Theorem load_falls_back (r : Stored) :
  persistedSequence r = None →
  loadHistory r = []
  ∧ loadPresets r = presetToJSON <$> initialPresets
  ∧ length (loadPresets r) = 5.
Proof.
  intros Hnone.
  assert (loadHistory r = [] ∧ loadPresets r = presetToJSON <$> initialPresets) as [Hh Hp].
  { destruct r as [| |s]; [done|done|]. simpl in *.
    destruct (bool_decide (s = "")); [done|].
    destruct (JSON_parse s) as [[]|]; done. }
  rewrite Hh, Hp. done.
Qed.

(** What [presetShaped] checks: the element is an object with a member
    named [title] and a member named [prompt], whatever their values. *)
Lemma presetShaped_spec (item : JSON) :
  presetShaped item = true ↔
  ∃ members, item = JObject members
             ∧ "title" ∈ members.*1 ∧ "prompt" ∈ members.*1.
Proof.
  assert (∀ key members,
            existsb (λ kv : string * JSON, bool_decide (kv.1 = key)) members = true
            ↔ key ∈ members.*1) as Hkey.
  { intros key members. induction members as [|kv members IH]; simpl.
    - split; [done | by intros ?%elem_of_nil].
    - rewrite orb_true_iff, IH, bool_decide_eq_true, elem_of_cons. naive_solver. }
  unfold presetShaped. destruct item as [| | | | |members]; simpl;
    try (split; [done | by intros (? & ? & _)]).
  rewrite andb_true_iff, !Hkey. split.
  - intros [? ?]. by exists members.
  - by intros (? & [= <-] & ? & ?).
Qed.

(** C10: the two initialisers validate to different depths. From a saved
    text that parses to an array, the activity log takes the array as it
    is, whatever its elements; the preset store takes it only when every
    element is an object with a [title] and a [prompt] member, and falls
    back to the seed entries as soon as one element is not. *)
Theorem load_validation_depth (s : string) (l : list JSON) :
  s ≠ "" →
  JSON_parse s = Some (JArray l) →
  loadHistory (Saved s) = l
  ∧ (Forall (λ item, ∃ members, item = JObject members
                       ∧ "title" ∈ members.*1 ∧ "prompt" ∈ members.*1) l →
     loadPresets (Saved s) = l)
  ∧ (Exists (λ item, ¬ ∃ members, item = JObject members
                       ∧ "title" ∈ members.*1 ∧ "prompt" ∈ members.*1) l →
     loadPresets (Saved s) = presetToJSON <$> initialPresets).
Proof.
  intros Hs Hparse. simpl. rewrite (bool_decide_false (s = "")) by done.
  rewrite Hparse. split; [done|].
  destruct (forallb presetShaped l) eqn:E.
  - split; [done|]. intros Hex. exfalso.
    apply Exists_exists in Hex as (item & Hin & Hbad). apply Hbad.
    apply presetShaped_spec.
    rewrite forallb_forall in E. apply E. by apply list_elem_of_In.
  - split; [|done]. intros Hall. exfalso.
    assert (forallb presetShaped l = true) as Htrue; [|congruence].
    apply forallb_forall. intros item Hin. apply presetShaped_spec.
    rewrite Forall_forall in Hall. apply Hall. by apply list_elem_of_In.
Qed.

End LoadFacts.

Lemma load_falls_back_witness :
  persistedSequence (host := sampleHost) (Saved "{}") = None
  ∧ loadPresets (host := sampleHost) (Saved "{}") = presetToJSON <$> initialPresets.
Proof.
  split; [reflexivity|].
  apply (load_falls_back (host := sampleHost) (Saved "{}")). reflexivity.
Defined.

Lemma load_validation_depth_witness :
  "[1]" ≠ ""
  ∧ JSON_parse (Host := sampleHost) "[1]" = Some (JArray [JNumber "1"])
  ∧ loadHistory (host := sampleHost) (Saved "[1]") = [JNumber "1"].
Proof.
  split; [discriminate|]. split; [reflexivity|].
  apply (load_validation_depth (host := sampleHost) "[1]" [JNumber "1"]);
    [discriminate | reflexivity].
Defined.

(** The same saved text enters the log and is refused by the preset store. *)
Example malformed_record_enters_log :
  loadHistory (host := sampleHost) (Saved "[1]") = [JNumber "1"]
  ∧ loadPresets (host := sampleHost) (Saved "[1]") = presetToJSON <$> initialPresets.
Proof. split; reflexivity. Qed.

(** ** The analyze operation *)

(** When the remote call rejects, the analyze operation rejects with its
    fixed message. *)
Lemma analyze_rejects_when_remote_rejects :
  generateTextFromImageAndText Gemini.Rejects = Threw (ErrorObject analyzeFailure).
Proof. reflexivity. Qed.

(** C9 (the defect): on a response that carries no usable text, where
    the [text] accessor yields [undefined] or the empty string, the
    analyze operation resolves with that value instead of failing, whereas
    the two sibling operations fail on a response that carries no image. *)
Theorem analyze_returns_missing_text :
  generateTextFromImageAndText (Gemini.Resolves (Gemini.mkResponse None None))
  = Fulfilled None
  ∧ generateTextFromImageAndText (Gemini.Resolves (Gemini.mkResponse None (Some "")))
    = Fulfilled (Some "")
  ∧ editImageWithText (Gemini.Resolves (Gemini.mkResponse None None))
    = Threw (ErrorObject editFailure)
  ∧ generateImageFromText (Gemini.Resolves (Gemini.mkResponse None None))
    = Threw (ErrorObject generateFailure).
Proof. repeat split. Qed.

(** * Further properties of the code *)

(** ** Registry operations *)

Section RegistryMore.
Context {host : Host}.

(** X1: [handleImagesChange] only appends. The items registered before
    the call stay in front, unchanged and in order; behind them come the
    input files that match no registered item in name and size, in input
    order; the selection and the job results are not touched. *)
Theorem registry_grows_in_input_order (files : list File.t)
    (st : EditTabState) (b : Browser) :
  uploadedImages st `prefix_of` uploadedImages (handleImagesChange files st b).1
  ∧ UploadedImage.file <$> drop (length (uploadedImages st))
                             (uploadedImages (handleImagesChange files st b).1)
    = filter (λ f, identity f ∉ identities st) files
  ∧ selectedImageIds (handleImagesChange files st b).1 = selectedImageIds st
  ∧ editResults (handleImagesChange files st b).1 = editResults st.
Proof.
  assert (filter (λ f, existsb (λ img, sameFile (UploadedImage.file img) f)
                         (uploadedImages st) = false) files
          = filter (λ f, identity f ∉ identities st) files) as Hfilter.
  { apply list_filter_iff. intros f. apply existsb_sameFile. }
  unfold handleImagesChange. rewrite Hfilter.
  set (fresh := filter _ files).
  pose proof (mintImages_files (draws b) fresh) as Hf.
  destruct (mintImages (draws b) fresh) as [|img imgs] eqn:E; simpl.
  - split; [done|]. rewrite drop_all. simpl in Hf. by rewrite <- Hf.
  - split; [by apply prefix_app_r|]. by rewrite drop_app_length, Hf.
Qed.

(** X2: adding files that are all registered already (by name and size)
    changes neither the registry nor the handles: nothing is minted and
    nothing is revoked. *)
Theorem readding_known_files_is_noop (files : list File.t)
    (st : EditTabState) (b : Browser) :
  Forall (λ f, identity f ∈ identities st) files →
  handleImagesChange files st b = (st, b).
Proof.
  intros Hall. unfold handleImagesChange.
  assert (filter (λ f, existsb (λ img, sameFile (UploadedImage.file img) f)
                         (uploadedImages st) = false) files = []) as ->.
  { induction Hall as [|f fs Hf _ IH]; [done|].
    rewrite filter_cons_False; [done|].
    rewrite existsb_sameFile, <- identities_files. by intros Hn. }
  simpl. rewrite Nat.add_0_r. by destruct b.
Qed.

(** X3: as long as the files of each batch differ pairwise in (name,
    size), the stored (name, size) pairs stay pairwise distinct. *)
Theorem distinct_batches_keep_registry_distinct (files : list File.t)
    (st : EditTabState) (b : Browser) :
  NoDup (identities st) →
  NoDup (identity <$> files) →
  NoDup (identities (handleImagesChange files st b).1).
Proof.
  intros Hst Hfiles.
  rewrite identities_files, handleImagesChange_files, fmap_app, <- identities_files.
  apply NoDup_app. split; [done|]. split.
  - intros x Hx Hin. apply list_elem_of_fmap in Hin as (f & -> & Hf).
    apply list_elem_of_filter in Hf as [Hf _].
    apply existsb_sameFile in Hf. by rewrite <- identities_files in Hf.
  - eapply sublist_NoDup; [exact Hfiles | apply fmap_sublist, sublist_filter].
Qed.

(** X4: [handleRemoveImage] removes every item of the given id and keeps
    the others: the items left are exactly the items of another id, each
    as often and in the order it was registered. On an id that names no
    item the registry content is unchanged; and removing the same id a
    second time changes neither the registry content nor the selection. *)
Theorem remove_is_idempotent_on_contents (i : string)
    (st : EditTabState) (b b' : Browser) :
  (i ∉ UploadedImage.id <$> uploadedImages (handleRemoveImage i st b).1)
  ∧ uploadedImages (handleRemoveImage i st b).1 `sublist_of` uploadedImages st
  ∧ (∀ img, img ∈ uploadedImages (handleRemoveImage i st b).1 ↔
            img ∈ uploadedImages st ∧ UploadedImage.id img ≠ i)
  ∧ (∀ j, j ≠ i →
       filter (λ img, UploadedImage.id img = j) (uploadedImages (handleRemoveImage i st b).1)
       = filter (λ img, UploadedImage.id img = j) (uploadedImages st))
  ∧ length (uploadedImages (handleRemoveImage i st b).1)
    + length (filter (λ img, UploadedImage.id img = i) (uploadedImages st))
    = length (uploadedImages st)
  ∧ (i ∉ UploadedImage.id <$> uploadedImages st →
     uploadedImages (handleRemoveImage i st b).1 = uploadedImages st)
  ∧ uploadedImages (handleRemoveImage i (handleRemoveImage i st b).1 b').1
    = uploadedImages (handleRemoveImage i st b).1
  ∧ selectedImageIds (handleRemoveImage i (handleRemoveImage i st b).1 b').1
    = selectedImageIds (handleRemoveImage i st b).1.
Proof.
  simpl. split; [|split; [|split; [|split; [|split; [|split; [|split]]]]]].
  - intros Hin. apply list_elem_of_fmap in Hin as (img & -> & Hin).
    apply list_elem_of_filter in Hin as [Hne _]. by apply Hne.
  - apply sublist_filter.
  - intros img. rewrite list_elem_of_filter. tauto.
  - intros j Hj. induction (uploadedImages st) as [|img imgs IH]; [done|].
    destruct (decide (UploadedImage.id img = i)) as [Heq|Hne].
    + rewrite (filter_cons_False (λ x, UploadedImage.id x ≠ i)) by (intros Hn; by apply Hn).
      rewrite (filter_cons_False (λ x, UploadedImage.id x = j)) by congruence. done.
    + rewrite (filter_cons_True (λ x, UploadedImage.id x ≠ i)) by done.
      destruct (decide (UploadedImage.id img = j)) as [Hj'|Hj'].
      * rewrite !(filter_cons_True (λ x, UploadedImage.id x = j)) by done. by rewrite IH.
      * rewrite !(filter_cons_False (λ x, UploadedImage.id x = j)) by done. done.
  - induction (uploadedImages st) as [|img imgs IH]; [done|].
    destruct (decide (UploadedImage.id img = i)) as [Heq|Hne].
    + rewrite filter_cons_False by (intros Hn; by apply Hn).
      rewrite filter_cons_True by done. simpl. lia.
    + rewrite filter_cons_True by done. rewrite filter_cons_False by done. simpl. lia.
  - intros Hno. induction (uploadedImages st) as [|img imgs IH]; [done|].
    rewrite fmap_cons in Hno. apply not_elem_of_cons in Hno as [Hne Hno].
    rewrite filter_cons_True by done. by rewrite IH.
  - induction (uploadedImages st) as [|img imgs IH]; [done|].
    destruct (decide (UploadedImage.id img = i)) as [Heq|Hne].
    + by rewrite filter_cons_False by (intros Hn; by apply Hn).
    + rewrite filter_cons_True by done. rewrite filter_cons_True by done.
      by rewrite IH.
  - set_solver.
Qed.

End RegistryMore.

(** X5: toggling the same id twice restores the state. *)
Theorem toggle_twice_restores (i : string) (st : EditTabState) :
  handleToggleSelection i (handleToggleSelection i st) = st.
Proof.
  destruct st as [p imgs sel res ld pm er].
  unfold handleToggleSelection, withSelection. simpl. f_equal.
  destruct (decide (i ∈ sel)) as [Hin|Hout].
  - rewrite decide_False by set_solver.
    apply set_eq. intros j. destruct (decide (j = i)); set_solver.
  - rewrite decide_True by set_solver.
    apply set_eq. intros j. destruct (decide (j = i)); set_solver.
Qed.

Lemma readding_known_files_is_noop_witness :
  let st := (handleImagesChange (host := sampleHost)
               [sampleFile "a.png" 10] initialEditTab initialBrowser).1 in
  Forall (λ f, identity f ∈ identities st) [sampleFile "a.png" 10]
  ∧ handleImagesChange (host := sampleHost) [sampleFile "a.png" 10] st initialBrowser
    = (st, initialBrowser).
Proof.
  intros st.
  assert (Forall (λ f, identity f ∈ identities st) [sampleFile "a.png" 10]) as H1.
  { apply Forall_singleton. vm_compute. constructor. }
  split; [exact H1|].
  apply (readding_known_files_is_noop (host := sampleHost) _ st initialBrowser H1).
Defined.

Lemma distinct_batches_keep_registry_distinct_witness :
  NoDup (identities initialEditTab)
  ∧ NoDup (identity <$> [sampleFile "a.png" 10; sampleFile "b.png" 20])
  ∧ NoDup (identities (handleImagesChange (host := sampleHost)
             [sampleFile "a.png" 10; sampleFile "b.png" 20]
             initialEditTab initialBrowser).1).
Proof.
  assert (NoDup (identities initialEditTab)) as H1 by constructor.
  assert (NoDup (identity <$> [sampleFile "a.png" 10; sampleFile "b.png" 20])) as H2.
  { apply (bool_decide_unpack _). vm_compute. exact I. }
  split; [exact H1|]. split; [exact H2|].
  apply (distinct_batches_keep_registry_distinct (host := sampleHost) _ _ _ H1 H2).
Defined.

(** ** The batch run, continued *)

Section RunMore.
Context {host : Host}.

Lemma editLoop_loop_events remote p total images i m :
  Forall (λ e, isLoopEvent e = true) (editLoop remote p total i images m).1.
Proof.
  revert i m. induction images as [|img rest IH]; intros i m; [constructor|].
  rewrite editLoop_cons. cbn [fst]. apply Forall_app. split; [|apply IH].
  unfold editOne. destruct (editImageWithText (remote i)); repeat constructor.
Qed.

(** What no event of a run changes, and what the events of the loop
    leave alone. *)
Lemma applyEvents_frame evs a :
  presets (applyEvents a evs) = presets a
  ∧ prompt (editTab (applyEvents a evs)) = prompt (editTab a)
  ∧ uploadedImages (editTab (applyEvents a evs)) = uploadedImages (editTab a)
  ∧ selectedImageIds (editTab (applyEvents a evs)) = selectedImageIds (editTab a).
Proof.
  revert a. induction evs as [|e evs IH]; intros a; [done|].
  change (applyEvents a (e :: evs)) with (applyEvents (applyEvent a e) evs).
  destruct (IH (applyEvent a e)) as (-> & -> & -> & ->). by destruct e.
Qed.

Lemma applyEvents_loop_frame evs a :
  Forall (λ e, isLoopEvent e = true) evs →
  loading (editTab (applyEvents a evs)) = loading (editTab a)
  ∧ error (editTab (applyEvents a evs)) = error (editTab a).
Proof.
  intros Hall. revert a. induction Hall as [|e evs He _ IH]; intros a; [done|].
  change (applyEvents a (e :: evs)) with (applyEvents (applyEvent a e) evs).
  destruct (IH (applyEvent a e)) as (-> & ->). by destruct e.
Qed.

(** X6: in a run that passes validation, the remote service is called
    once per registered item whose id is selected, in the order of the
    registry (not the order in which the items were selected), each call
    carrying the trimmed instruction and the item's file. *)
Theorem run_calls_in_registry_order (remote : nat → Gemini.Outcome) (st : EditTabState) :
  trim (prompt st) ≠ "" →
  selectedImageIds st ≠ ∅ →
  remoteCalls (handleSubmit remote st)
  = (λ img, RemoteCall (trim (prompt st)) (UploadedImage.file img)) <$> selectedImages st
  ∧ selectedImages st `sublist_of` uploadedImages st
  ∧ (∀ img, img ∈ selectedImages st ↔
       img ∈ uploadedImages st ∧ UploadedImage.id img ∈ selectedImageIds st).
Proof.
  intros Hp Hsel. split; [|split].
  - rewrite handleSubmit_valid by done. unfold remoteCalls.
    rewrite !List.filter_app.
    fold (remoteCalls (editLoop remote (trim (prompt st)) (length (selectedImages st)) 0
                         (selectedImages st) ∅).1).
    rewrite editLoop_remoteCalls. simpl. by rewrite app_nil_r.
  - apply sublist_filter.
  - intros img. unfold selectedImages. rewrite list_elem_of_filter. naive_solver.
Qed.

(** X7: whatever the remote service does, a run that passes validation
    ends with the spinner off, the progress text and the error text
    empty, and with the instruction, the registry, the selection and the
    presets as they were. *)
Theorem run_ends_idle (remote : nat → Gemini.Outcome) (a : App) :
  trim (prompt (editTab a)) ≠ "" →
  selectedImageIds (editTab a) ≠ ∅ →
  loading (editTab (runSubmit remote a)) = false
  ∧ progressMessage (editTab (runSubmit remote a)) = ""
  ∧ error (editTab (runSubmit remote a)) = ""
  ∧ prompt (editTab (runSubmit remote a)) = prompt (editTab a)
  ∧ uploadedImages (editTab (runSubmit remote a)) = uploadedImages (editTab a)
  ∧ selectedImageIds (editTab (runSubmit remote a)) = selectedImageIds (editTab a)
  ∧ presets (runSubmit remote a) = presets a.
Proof.
  intros Hp Hsel. unfold runSubmit.
  destruct (applyEvents_frame (handleSubmit remote (editTab a)) a) as (-> & -> & -> & ->).
  rewrite handleSubmit_valid by done.
  set (loop := editLoop _ _ _ _ _ _).
  rewrite !applyEvents_app.
  destruct (applyEvents_loop_frame loop.1 (applyEvents a runPrologue)
              (editLoop_loop_events _ _ _ _ _ _)) as [_ Herr].
  simpl. simpl in Herr. by rewrite Herr.
Qed.

Lemma editLoop_announced remote p total images i m :
  List.filter isProgressOrCall (editLoop remote p total i images m).1
  = mjoin (imap (λ j img, [SetProgressMessage (progressOf (i + j) total img);
                           RemoteCall p (UploadedImage.file img)]) images).
Proof.
  revert i m. induction images as [|img rest IH]; intros i m; [done|].
  rewrite editLoop_cons. cbn [fst]. rewrite List.filter_app, IH, imap_cons.
  simpl. rewrite Nat.add_0_r.
  assert (List.filter isProgressOrCall (editOne remote p total i img).1
          = [SetProgressMessage (progressOf i total img);
             RemoteCall p (UploadedImage.file img)]) as ->.
  { unfold editOne. by destruct (editImageWithText (remote i)). }
  simpl. do 2 f_equal. f_equal. apply imap_ext. intros j x _. simpl.
  by rewrite Nat.add_succ_r.
Qed.

(** X8: the progress of a run. Of the progress messages and remote calls
    of a run, the first is the message that the run is being prepared;
    then, for the item at index [j] of the [n] selected items, the message
    "Editing image j+1 of n: name" immediately followed by the item's
    remote call; and last the empty message. *)
Theorem run_announces_each_item (remote : nat → Gemini.Outcome) (st : EditTabState) :
  trim (prompt st) ≠ "" →
  selectedImageIds st ≠ ∅ →
  List.filter isProgressOrCall (handleSubmit remote st)
  = SetProgressMessage "Preparing to edit..."
    :: mjoin (imap (λ j img,
                [SetProgressMessage
                   ("Editing image " +:+ pretty (j + 1) +:+ " of "
                      +:+ pretty (length (selectedImages st)) +:+ ": "
                      +:+ File.name (UploadedImage.file img));
                 RemoteCall (trim (prompt st)) (UploadedImage.file img)])
              (selectedImages st))
    ++ [SetProgressMessage ""].
Proof.
  intros Hp Hsel. rewrite handleSubmit_valid by done.
  rewrite !List.filter_app, editLoop_announced. done.
Qed.

End RunMore.

Lemma run_calls_in_registry_order_witness :
  trim (Host := sampleHost) (prompt sampleTab) ≠ ""
  ∧ selectedImageIds sampleTab ≠ ∅
  ∧ remoteCalls (handleSubmit (host := sampleHost) sampleRemote sampleTab)
    = (λ img, RemoteCall (trim (Host := sampleHost) (prompt sampleTab))
                (UploadedImage.file img)) <$> selectedImages sampleTab.
Proof.
  assert (trim (Host := sampleHost) (prompt sampleTab) ≠ "") as H1
    by (vm_compute; discriminate).
  assert (selectedImageIds sampleTab ≠ ∅) as H2.
  { intros Heq. apply (f_equal size) in Heq. vm_compute in Heq. discriminate. }
  split; [exact H1|]. split; [exact H2|].
  apply (run_calls_in_registry_order (host := sampleHost) sampleRemote sampleTab H1 H2).
Defined.

Lemma run_ends_idle_witness :
  trim (Host := sampleHost) (prompt (editTab sampleApp)) ≠ ""
  ∧ selectedImageIds (editTab sampleApp) ≠ ∅
  ∧ loading (editTab (runSubmit (host := sampleHost) sampleRemote sampleApp)) = false.
Proof.
  assert (trim (Host := sampleHost) (prompt (editTab sampleApp)) ≠ "") as H1
    by (vm_compute; discriminate).
  assert (selectedImageIds (editTab sampleApp) ≠ ∅) as H2.
  { intros Heq. apply (f_equal size) in Heq. vm_compute in Heq. discriminate. }
  split; [exact H1|]. split; [exact H2|].
  apply (run_ends_idle (host := sampleHost) sampleRemote sampleApp H1 H2).
Defined.

Lemma run_announces_each_item_witness :
  trim (Host := sampleHost) (prompt sampleTab) ≠ ""
  ∧ selectedImageIds sampleTab ≠ ∅
  ∧ List.filter isProgressOrCall (handleSubmit (host := sampleHost) sampleRemote sampleTab)
    = SetProgressMessage "Preparing to edit..."
      :: mjoin (imap (λ j img,
                  [SetProgressMessage
                     ("Editing image " +:+ pretty (j + 1) +:+ " of "
                        +:+ pretty (length (selectedImages sampleTab)) +:+ ": "
                        +:+ File.name (UploadedImage.file img));
                   RemoteCall (trim (Host := sampleHost) (prompt sampleTab))
                     (UploadedImage.file img)])
                (selectedImages sampleTab))
      ++ [SetProgressMessage ""].
Proof.
  assert (trim (Host := sampleHost) (prompt sampleTab) ≠ "") as H1
    by (vm_compute; discriminate).
  assert (selectedImageIds sampleTab ≠ ∅) as H2.
  { intros Heq. apply (f_equal size) in Heq. vm_compute in Heq. discriminate. }
  split; [exact H1|]. split; [exact H2|].
  exact (run_announces_each_item (host := sampleHost) sampleRemote sampleTab H1 H2).
Defined.

(** The messages of the sample run, evaluated. *)
Example sample_progress_messages :
  omap (λ e, match e with SetProgressMessage msg => Some msg | _ => None end)
       (handleSubmit (host := sampleHost) sampleRemote sampleTab)
  = ["Preparing to edit..."; "Editing image 1 of 3: a.png";
     "Editing image 2 of 3: b.png"; "Editing image 3 of 3: c.png"; ""].
Proof. vm_compute. reflexivity. Qed.

(** ** The result panel and the guards *)

Section PanelFacts.
Context {host : Host}.

(** Every entry of the map the loop returns was in the map it started
    from or is the entry the loop made for one of the items. *)
Lemma editLoop_entry_origin remote p total images i m k r :
  (editLoop remote p total i images m).2 !! k = Some r →
  m !! k = Some r
  ∨ ∃ j img, images !! j = Some img ∧ r = (editOne remote p total (i + j) img).2.
Proof.
  revert i m. induction images as [|img rest IH]; intros i m; [by left|].
  rewrite editLoop_cons. cbn [snd]. intros Hk.
  apply IH in Hk as [Hk|(j & x & Hj & ->)].
  - destruct (decide (UploadedImage.id img = k)) as [<-|Hne].
    + rewrite lookup_insert_eq in Hk. injection Hk as <-.
      right. exists 0, img. by rewrite Nat.add_0_r.
    + rewrite lookup_insert_ne in Hk by done. by left.
  - right. exists (S j), x. split; [done|]. by rewrite Nat.add_succ_r.
Qed.

Lemma editOne_view remote p total i img :
  resultView (editOne remote p total i img).2 ≠ NoImageReturned.
Proof.
  unfold editOne. destruct (editImageWithText (remote i)) as [urls|e] eqn:E; simpl.
  - apply editImageWithText_fulfilled in E as (u & rest & -> & Hne).
    apply Forall_cons in Hne as [Hu _].
    unfold resultView. simpl. destruct (decide (u = "")); [done|]. simpl.
    by rewrite bool_decide_false by done.
  - apply editImageWithText_threw in E as ->. done.
Qed.

(** X9: after a run that passes validation, no published entry is shown
    as "No image returned.". An entry with a failure has no outputs and a
    non-empty error text, and the panel shows that text; an entry without
    one has at least one output, and the panel shows the first output as
    the selected image, with the thumbnails when there are several. *)
Theorem run_results_always_show_something (remote : nat → Gemini.Outcome)
    (a : App) (k : string) (r : EditResult.t) :
  trim (prompt (editTab a)) ≠ "" →
  selectedImageIds (editTab a) ≠ ∅ →
  editResults (editTab (runSubmit remote a)) !! k = Some r →
  resultView r ≠ NoImageReturned
  ∧ (∀ msg, EditResult.error r = Some msg →
       msg ≠ "" ∧ EditResult.editedUrls r = [] ∧ resultView r = ErrorBox msg)
  ∧ (EditResult.error r = None →
     ∃ u rest, EditResult.editedUrls r = u :: rest
               ∧ resultView r = EditedImage u (if rest is [] then [] else u :: rest)).
Proof.
  intros Hp Hsel. unfold runSubmit. rewrite handleSubmit_valid by done.
  rewrite !applyEvents_app. simpl. intros Hk.
  apply editLoop_entry_origin in Hk as [Hk|(j & img & _ & ->)]; [done|].
  split; [apply editOne_view|].
  unfold editOne. destruct (editImageWithText (remote (0 + j))) as [urls|e] eqn:E; simpl.
  - split; [done|].
    intros _. apply editImageWithText_fulfilled in E as (u & rest & -> & Hne).
    apply Forall_cons in Hne as [Hu _]. exists u, rest. split; [done|].
    unfold resultView. simpl. destruct (decide (u = "")); [done|]. simpl.
    rewrite bool_decide_false by done. simpl. by destruct rest.
  - split; [|done]. apply editImageWithText_threw in E as ->.
    intros msg [= <-]. done.
Qed.


(** X11: the submit button and the handler agree. While no run is in
    progress, the button is enabled exactly when [handleSubmit] starts a
    run instead of reporting the validation error. *)
Theorem submit_enabled_iff_run_starts (remote : nat → Gemini.Outcome) (st : EditTabState) :
  loading st = false →
  (canSubmit st = true ↔ handleSubmit remote st ≠ [SetError validationMessage])
  ∧ (canSubmit st = true ↔ take 4 (handleSubmit remote st) = runPrologue).
Proof.
  intros Hl. unfold canSubmit. rewrite Hl. simpl.
  destruct (decide (trim (prompt st) = "")) as [Hp|Hp].
  { rewrite (bool_decide_true _ Hp). simpl.
    unfold handleSubmit. rewrite (bool_decide_true _ Hp). simpl.
    split; split; done. }
  rewrite (bool_decide_false _ Hp). simpl.
  destruct (decide (selectedImageIds st = ∅)) as [Hs|Hs].
  { unfold handleSubmit. rewrite Hs, size_empty. simpl.
    rewrite orb_true_r. split; split; done. }
  assert (size (selectedImageIds st) ≠ 0) as Hsz.
  { intros Hsz. apply Hs. by apply leibniz_equiv, size_empty_iff. }
  assert ((0 <? size (selectedImageIds st)) = true) as -> by (apply Nat.ltb_lt; lia).
  rewrite handleSubmit_valid by done. split; split; done.
Qed.

(** X12: the save button and the handler agree on the instruction. When
    the button is enabled, [handleSaveAsPreset] never alerts that the
    instructions exist already; when it is disabled, the handler would
    leave the presets as they are. *)
Theorem save_enabled_iff_instruction_is_new (ps : list Preset.t)
    (st : EditTabState) (answer : option string) :
  (canSavePreset ps st = true →
     promptTaken ∉ (handleSaveAsPreset ps (prompt st) answer).2)
  ∧ (canSavePreset ps st = false →
     (handleSaveAsPreset ps (prompt st) answer).1 = ps).
Proof.
  unfold canSavePreset, handleSaveAsPreset.
  destruct (bool_decide (trim (prompt st) = "")); simpl.
  { split; [done|]. done. }
  destruct (promptExists ps (trim (prompt st))) eqn:Ep; simpl.
  - split; [done|]. intros _. destruct answer as [title|]; [|done].
    destruct (bool_decide (title = "") || bool_decide (trim title = "")); [done|].
    by destruct (titleExists ps (trim title)).
  - split; [|done]. intros _. destruct answer as [title|]; [|apply not_elem_of_nil].
    destruct (bool_decide (title = "") || bool_decide (trim title = ""));
      [apply not_elem_of_nil|].
    destruct (titleExists ps (trim title)); [|apply not_elem_of_nil].
    apply not_elem_of_cons. split; [done | apply not_elem_of_nil].
Qed.

End PanelFacts.

(** ** The preset store, continued *)

Section PresetMore.
Context {host : Host}.

Lemma filter_all {A} (P : A → Prop) `{!∀ x, Decision (P x)} (l : list A) :
  Forall P l → filter P l = l.
Proof.
  induction 1 as [|x l Hx _ IH]; [done|]. by rewrite filter_cons_True, IH.
Qed.

Lemma fmap_NoDup_inj {A B} (f : A → B) (l : list A) (x y : A) :
  NoDup (f <$> l) → x ∈ l → y ∈ l → f x = f y → x = y.
Proof.
  induction l as [|a l IH]; intros Hnd Hx Hy Heq; [by apply elem_of_nil in Hx|].
  rewrite fmap_cons in Hnd. apply NoDup_cons in Hnd as [Ha Hnd].
  apply elem_of_cons in Hx as [->|Hx]; apply elem_of_cons in Hy as [->|Hy].
  - done.
  - exfalso. apply Ha. rewrite Heq. apply list_elem_of_fmap. by exists y.
  - exfalso. apply Ha. rewrite <- Heq. apply list_elem_of_fmap. by exists x.
  - by apply IH.
Qed.

Lemma titleExists_false ps t :
  titleExists ps t = false → toLowerCase t ∉ (λ e, toLowerCase (Preset.title e)) <$> ps.
Proof.
  intros Hf Hin. apply list_elem_of_fmap in Hin as (e & Heq & Hin).
  assert (titleExists ps t = true); [|congruence].
  apply titleExists_spec, Exists_exists. by exists e.
Qed.

Lemma promptExists_false ps p :
  promptExists ps p = false → p ∉ Preset.prompt <$> ps.
Proof.
  intros Hf Hin. apply list_elem_of_fmap in Hin as (e & Heq & Hin).
  assert (promptExists ps p = true); [|congruence].
  apply promptExists_spec, Exists_exists. by exists e.
Qed.

(** Either handler leaves the list alone or puts in front an entry whose
    title and instruction passed both checks. *)
Lemma handleAddPreset_cases ps st :
  (handleAddPreset ps st).1 = ps
  ∨ ∃ t p, (handleAddPreset ps st).1 = Preset.mk t p :: ps
           ∧ titleExists ps t = false ∧ promptExists ps p = false.
Proof.
  unfold handleAddPreset.
  destruct (bool_decide _ || bool_decide _); [by left|].
  destruct (titleExists ps _) eqn:Et; [by left|].
  destruct (promptExists ps _) eqn:Ep; [by left|].
  right. by eexists _, _.
Qed.

Lemma handleSaveAsPreset_cases ps current answer :
  (handleSaveAsPreset ps current answer).1 = ps
  ∨ ∃ t p, (handleSaveAsPreset ps current answer).1 = Preset.mk t p :: ps
           ∧ titleExists ps t = false ∧ promptExists ps p = false.
Proof.
  unfold handleSaveAsPreset.
  destruct (bool_decide _); [by left|].
  destruct answer as [title|]; [|by left].
  destruct (bool_decide _ || bool_decide _); [by left|].
  destruct (titleExists ps _) eqn:Et; [by left|].
  destruct (promptExists ps _) eqn:Ep; [by left|].
  right. by eexists _, _.
Qed.

Lemma presetsDistinct_cons ps t p :
  presetsDistinct ps →
  titleExists ps t = false → promptExists ps p = false →
  presetsDistinct (Preset.mk t p :: ps).
Proof.
  intros [Ht Hp] Et Ep. split; rewrite fmap_cons; apply NoDup_cons; split; try done.
  - by apply titleExists_false.
  - by apply promptExists_false.
Qed.

(** X13: the three preset handlers keep the entries distinct. If no two
    entries share a title up to case or an instruction, the same holds
    after [handleAddPreset], after [handleSaveAsPreset] and after
    [handleDeletePreset], whatever their inputs. *)
Theorem preset_handlers_keep_entries_distinct (ps : list Preset.t)
    (form : PresetTabState) (current : string) (answer : option string)
    (presetToDelete : Preset.t) :
  presetsDistinct ps →
  presetsDistinct (handleAddPreset ps form).1
  ∧ presetsDistinct (handleSaveAsPreset ps current answer).1
  ∧ presetsDistinct (handleDeletePreset ps presetToDelete).
Proof.
  intros Hd. split; [|split].
  - destruct (handleAddPreset_cases ps form) as [->|(t & p & -> & Et & Ep)]; [done|].
    by apply presetsDistinct_cons.
  - destruct (handleSaveAsPreset_cases ps current answer) as [->|(t & p & -> & Et & Ep)];
      [done|]. by apply presetsDistinct_cons.
  - destruct Hd as [Ht Hp]. unfold handleDeletePreset.
    split.
    + eapply sublist_NoDup; [exact Ht | apply fmap_sublist, sublist_filter].
    + eapply sublist_NoDup; [exact Hp | apply fmap_sublist, sublist_filter].
Qed.

Lemma delete_length ps e :
  NoDup (Preset.title <$> ps) → e ∈ ps →
  S (length (handleDeletePreset ps e)) = length ps.
Proof.
  unfold handleDeletePreset. induction ps as [|x rest IH]; intros Hnd Hin.
  - by apply elem_of_nil in Hin.
  - rewrite fmap_cons in Hnd. apply NoDup_cons in Hnd as [Hx Hnd].
    apply elem_of_cons in Hin as [->|Hin].
    + rewrite filter_cons_False by (intros Hn; by apply Hn).
      simpl. f_equal. f_equal. apply filter_all.
      apply Forall_forall. intros y Hy Heq. apply Hx. rewrite <- Heq.
      apply list_elem_of_fmap. by exists y.
    + rewrite filter_cons_True.
      * simpl. f_equal. by apply IH.
      * intros Heq. apply Hx. rewrite Heq. apply list_elem_of_fmap. by exists e.
Qed.

(** X14: among distinct entries, [handleDeletePreset] removes the entry
    it is given and nothing else: the entries left are exactly the others,
    in their order, and the list is one shorter. *)
Theorem delete_removes_exactly_that_entry (ps : list Preset.t) (e : Preset.t) :
  presetsDistinct ps →
  e ∈ ps →
  (∀ x, x ∈ handleDeletePreset ps e ↔ x ∈ ps ∧ x ≠ e)
  ∧ handleDeletePreset ps e `sublist_of` ps
  ∧ S (length (handleDeletePreset ps e)) = length ps.
Proof.
  intros [Ht _] Hin.
  assert (NoDup (Preset.title <$> ps)) as Hnd.
  { assert ((λ e, toLowerCase (Preset.title e)) <$> ps
            = toLowerCase <$> (Preset.title <$> ps)) as Hc
      by (by rewrite <- list_fmap_compose).
    rewrite Hc in Ht. by apply NoDup_fmap_1 in Ht. }
  split; [|split; [apply sublist_filter | by apply delete_length]].
  intros x. unfold handleDeletePreset. rewrite list_elem_of_filter. split.
  - intros [Hne Hx]. split; [done|]. by intros ->.
  - intros [Hx Hne]. split; [|done]. intros Heq. apply Hne.
    by apply (fmap_NoDup_inj Preset.title ps).
Qed.

(** X15: a preset that was just accepted can be deleted again, which
    gives back the list from before the addition. *)
Theorem add_then_delete_restores (ps : list Preset.t) (title instruction message : string) :
  ¬ refused ps (trim title) (trim instruction) →
  handleDeletePreset
    (handleAddPreset ps {| newPreset := Preset.mk title instruction;
                           formError := message |}).1
    (Preset.mk (trim title) (trim instruction))
  = ps.
Proof.
  intros Hok.
  destruct (handleAddPreset_presets ps
              {| newPreset := Preset.mk title instruction; formError := message |})
    as [_ Hyes].
  simpl in Hyes. rewrite (Hyes Hok). unfold handleDeletePreset.
  rewrite filter_cons_False by (intros Hn; by apply Hn).
  apply filter_all, Forall_forall. intros e He Heq. apply Hok.
  right. right. left. apply Exists_exists. exists e. split; [done|].
  simpl in Heq. by rewrite Heq.
Qed.

End PresetMore.

Lemma preset_handlers_keep_entries_distinct_witness :
  presetsDistinct (host := sampleHost) initialPresets
  ∧ presetsDistinct (host := sampleHost)
      (handleAddPreset (host := sampleHost) initialPresets
         {| newPreset := Preset.mk "Sepia" "Make it sepia"; formError := "" |}).1.
Proof.
  assert (presetsDistinct (host := sampleHost) initialPresets) as H1.
  { split; apply (bool_decide_unpack _); vm_compute; exact I. }
  split; [exact H1|].
  apply (preset_handlers_keep_entries_distinct (host := sampleHost) initialPresets
           {| newPreset := Preset.mk "Sepia" "Make it sepia"; formError := "" |}
           "" None (Preset.mk "" "") H1).
Defined.

Lemma delete_removes_exactly_that_entry_witness :
  presetsDistinct (host := sampleHost) initialPresets
  ∧ Preset.mk "B&W" "Convert to black and white" ∈ initialPresets
  ∧ S (length (handleDeletePreset initialPresets
                 (Preset.mk "B&W" "Convert to black and white")))
    = length initialPresets.
Proof.
  assert (presetsDistinct (host := sampleHost) initialPresets) as H1.
  { split; apply (bool_decide_unpack _); vm_compute; exact I. }
  assert (Preset.mk "B&W" "Convert to black and white" ∈ initialPresets) as H2
    by (unfold initialPresets; repeat constructor).
  split; [exact H1|]. split; [exact H2|].
  apply (delete_removes_exactly_that_entry (host := sampleHost) _ _ H1 H2).
Defined.

Lemma add_then_delete_restores_witness :
  ¬ refused (host := sampleHost) initialPresets
      (trim (Host := sampleHost) " Sepia ") (trim (Host := sampleHost) "Make it sepia")
  ∧ handleDeletePreset
      (handleAddPreset (host := sampleHost) initialPresets
         {| newPreset := Preset.mk " Sepia " "Make it sepia"; formError := "" |}).1
      (Preset.mk "Sepia" "Make it sepia")
    = initialPresets.
Proof.
  assert (¬ refused (host := sampleHost) initialPresets
            (trim (Host := sampleHost) " Sepia ") (trim (Host := sampleHost) "Make it sepia"))
    as H1.
  { unfold refused. apply (bool_decide_unpack _). vm_compute. exact I. }
  split; [exact H1|].
  apply (add_then_delete_restores (host := sampleHost) initialPresets
           " Sepia " "Make it sepia" "" H1).
Defined.

(** ** Loading, continued *)

Section LoadMore.
Context {host : Host}.

(** X16: a saved text that parses to the array of a typed preset list is
    loaded as that list. This includes the empty list: once every preset
    has been deleted and the empty array saved, the next start shows no
    preset, not the seed entries. *)
Theorem saved_presets_load_back (s : string) (ps : list Preset.t) :
  s ≠ "" →
  JSON_parse s = Some (JArray (presetToJSON <$> ps)) →
  loadPresets (Saved s) = presetToJSON <$> ps
  ∧ (ps = [] → loadPresets (Saved s) = []).
Proof.
  intros Hs Hparse.
  assert (loadPresets (Saved s) = presetToJSON <$> ps) as Heq.
  { simpl. rewrite (bool_decide_false _ Hs), Hparse.
    assert (forallb presetShaped (presetToJSON <$> ps) = true) as ->; [|done].
    apply forallb_forall. intros item Hin. apply list_elem_of_In in Hin.
    by apply list_elem_of_fmap in Hin as (p & -> & _). }
  split; [done|]. intros ->. by rewrite Heq.
Qed.

End LoadMore.

Lemma saved_presets_load_back_witness :
  "[]" ≠ ""
  ∧ JSON_parse (Host := sampleHost) "[]" = Some (JArray (presetToJSON <$> []))
  ∧ loadPresets (host := sampleHost) (Saved "[]") = presetToJSON <$> [].
Proof.
  assert ("[]" ≠ "") as H1 by discriminate.
  assert (JSON_parse (Host := sampleHost) "[]" = Some (JArray (presetToJSON <$> []))) as H2
    by reflexivity.
  split; [exact H1|]. split; [exact H2|].
  exact (proj1 (saved_presets_load_back (host := sampleHost) "[]" [] H1 H2)).
Defined.

(** ** The remote service, continued *)

Lemma foldl_bind_None {A B} (f : A → B → option A) (l : list B) :
  foldl (λ acc x, acc ≫= λ a, f a x) None l = None.
Proof. induction l; done. Qed.

Lemma pushPart_typed images part :
  ¬ untypedBlob part →
  pushPart images part = Some (images ++ option_list (imageOfPart part)).
Proof.
  intros Hpart. unfold pushPart, imageOfPart.
  destruct (Gemini.inlineData part) as [blob|] eqn:Eb; simpl; [|by rewrite app_nil_r].
  destruct (Gemini.mimeType blob) as [mime|] eqn:Em; simpl.
  - destruct (String.prefix "image/" mime); simpl; [done | by rewrite app_nil_r].
  - exfalso. apply Hpart. by exists blob.
Qed.

Lemma pushPart_untyped images part :
  untypedBlob part → pushPart images part = None.
Proof. intros (blob & Hb & Hm). unfold pushPart. by rewrite Hb, Hm. Qed.

Lemma omap_cons_option {A B} (f : A → option B) (x : A) (l : list A) :
  omap f (x :: l) = option_list (f x) ++ omap f l.
Proof. simpl. by destruct (f x). Qed.

Lemma pushParts_spec ps images :
  (Forall (λ part, ¬ untypedBlob part) ps →
     pushParts images ps = Some (images ++ omap imageOfPart ps))
  ∧ (Exists untypedBlob ps → pushParts images ps = None).
Proof.
  unfold pushParts. revert images. induction ps as [|part ps IH]; intros images.
  { split; [intros _; simpl; by rewrite app_nil_r | by intros ?%Exists_nil]. }
  cbn [foldl mbind option_bind]. split.
  - intros Hall. apply Forall_cons in Hall as [Hpart Hall].
    rewrite (pushPart_typed _ _ Hpart), omap_cons_option, app_assoc.
    by apply IH.
  - intros Hex. apply Exists_cons in Hex as [Hbad|Hex].
    + rewrite (pushPart_untyped _ _ Hbad). apply foldl_bind_None.
    + destruct (pushPart images part) as [imgs|]; [by apply IH | apply foldl_bind_None].
Qed.

Lemma pushCandidates_spec cs images :
  let ps := c ← cs; match Gemini.content c with
                    | Some ct => default [] (Gemini.parts ct)
                    | None => []
                    end in
  (Forall (λ part, ¬ untypedBlob part) ps →
     foldl (λ acc c, acc ≫= λ imgs, pushCandidate imgs c) (Some images) cs
     = Some (images ++ omap imageOfPart ps))
  ∧ (Exists untypedBlob ps →
     foldl (λ acc c, acc ≫= λ imgs, pushCandidate imgs c) (Some images) cs = None).
Proof.
  revert images. induction cs as [|c cs IH]; intros images.
  { simpl. split; [intros _; by rewrite app_nil_r | by intros ?%Exists_nil]. }
  cbn zeta in *. rewrite bind_cons. simpl foldl.
  set (here := match Gemini.content c with
               | Some ct => default [] (Gemini.parts ct)
               | None => []
               end).
  assert (pushCandidate images c = pushParts images here) as ->.
  { unfold pushCandidate, here. destruct (Gemini.content c) as [ct|]; [|done].
    by destruct (Gemini.parts ct). }
  destruct (pushParts_spec here images) as [Hok Hbad]. split.
  - intros Hall. apply Forall_app in Hall as [Hhere Hrest].
    rewrite (Hok Hhere). simpl. destruct (IH (images ++ omap imageOfPart here)) as [-> _];
      [|done]. by rewrite omap_app, app_assoc.
  - intros Hex. apply Exists_app in Hex as [Hex|Hex].
    + rewrite (Hbad Hex). apply foldl_bind_None.
    + destruct (pushParts images here) as [imgs|]; [by apply IH | apply foldl_bind_None].
Qed.

Lemma collectImages_cases (r : Gemini.Response) :
  (Forall (λ part, ¬ untypedBlob part) (partsOf r) →
     collectImages r = Some (omap imageOfPart (partsOf r)))
  ∧ (Exists untypedBlob (partsOf r) → collectImages r = None).
Proof.
  unfold collectImages, partsOf. destruct (Gemini.candidates r) as [cs|] eqn:Ec; simpl.
  - destruct (pushCandidates_spec cs []) as [Hok Hbad]. cbn zeta in *. split.
    + intros Hall. by rewrite (Hok Hall).
    + intros Hex. by rewrite (Hbad Hex).
  - split; [done|]. by intros ?%Exists_nil.
Qed.

Lemma untyped_split (l : list Gemini.Part) :
  Forall (λ part, ¬ untypedBlob part) l ∨ Exists untypedBlob l.
Proof.
  induction l as [|part l [IH|IH]]; [by left| |by right; right].
  assert (untypedBlob part ∨ ¬ untypedBlob part) as [Hp|Hp].
  { unfold untypedBlob. destruct (Gemini.inlineData part) as [blob|].
    - destruct (Gemini.mimeType blob) as [mime|] eqn:E.
      + right. intros (b & [= <-] & Hm). congruence.
      + left. by exists blob.
    - right. by intros (b & Hb & _). }
  - right. by left.
  - left. by constructor.
Qed.

(** X17: what the image operations collect. When every inline-data part
    of the response has a [mimeType], the images are the data URLs of the
    parts whose type starts with [image/], in the order of the candidates
    and of their parts; parts without inline data and inline data of
    another type are skipped. When some inline-data part has no
    [mimeType], the collection throws, so both operations fail even if
    other parts carry images. *)
Theorem collectImages_spec (r : Gemini.Response) :
  (Forall (λ part, ¬ untypedBlob part) (partsOf r) →
     collectImages r = Some (omap imageOfPart (partsOf r)))
  ∧ (Exists untypedBlob (partsOf r) →
     collectImages r = None
     ∧ editImageWithText (Gemini.Resolves r) = Threw (ErrorObject editFailure)
     ∧ generateImageFromText (Gemini.Resolves r) = Threw (ErrorObject generateFailure)).
Proof.
  destruct (collectImages_cases r) as [Hok Hbad]. split; [done|].
  intros Hex. simpl. by rewrite (Hbad Hex).
Qed.

Lemma prefix_append s t rest :
  String.prefix s t = true → String.prefix s (t +:+ rest) = true.
Proof.
  revert t. induction s as [|a s IH]; intros t Ht.
  { by destruct (t +:+ rest). }
  destruct t as [|b t]; [done|].
  change (String b t +:+ rest) with (String b (t +:+ rest)).
  simpl in *. destruct (Ascii.ascii_dec a b); [by apply IH | done].
Qed.

Lemma imageOfPart_prefix part u :
  imageOfPart part = Some u → String.prefix "data:image/" u = true.
Proof.
  unfold imageOfPart. destruct (Gemini.inlineData part) as [blob|]; [|done]. simpl.
  destruct (Gemini.mimeType blob) as [mime|]; [|done]. simpl.
  destruct (String.prefix "image/" mime) eqn:E; [|done]. intros [= <-].
  change (String.prefix "image/" (mime +:+ ";base64," +:+ interpolate (Gemini.data blob)) = true).
  by apply prefix_append.
Qed.

(** X18: what the image operations return. A fulfilled [editImageWithText]
    or [generateImageFromText] returns at least one image, every image is
    a data URL that starts with [data:image/], and on the same response
    the two operations return the same images. *)
Theorem image_operations_return_data_urls (o : Gemini.Outcome) (urls : list string) :
  editImageWithText o = Fulfilled urls ∨ generateImageFromText o = Fulfilled urls →
  urls ≠ []
  ∧ Forall (λ u, String.prefix "data:image/" u = true) urls
  ∧ editImageWithText o = Fulfilled urls
  ∧ generateImageFromText o = Fulfilled urls.
Proof.
  intros Hf.
  assert (∃ r, o = Gemini.Resolves r ∧ collectImages r = Some urls ∧ urls ≠ [])
    as (r & -> & Hc & Hne).
  { destruct o as [|r]; [by destruct Hf|]. exists r. simpl in Hf.
    destruct (collectImages r) as [[|u rest]|]; destruct Hf as [Hf|Hf]; try done;
      by injection Hf as <-. }
  split; [done|]. split.
  - destruct (untyped_split (partsOf r)) as [Hall | Hex].
    + destruct (collectImages_cases r) as [Hok _]. rewrite (Hok Hall) in Hc.
      injection Hc as <-. apply Forall_forall. intros u Hu.
      apply list_elem_of_omap in Hu as (part & _ & Hpart).
      by eapply imageOfPart_prefix.
    + destruct (collectImages_cases r) as [_ Hbad]. rewrite (Hbad Hex) in Hc.
      done.
  - simpl. rewrite Hc. by destruct urls.
Qed.

Lemma image_operations_return_data_urls_witness :
  (editImageWithText (Gemini.Resolves (imageResponse "BBBB"))
     = Fulfilled ["data:image/png;base64,BBBB"]
   ∨ generateImageFromText (Gemini.Resolves (imageResponse "BBBB"))
     = Fulfilled ["data:image/png;base64,BBBB"])
  ∧ Forall (λ u, String.prefix "data:image/" u = true) ["data:image/png;base64,BBBB"].
Proof.
  assert (editImageWithText (Gemini.Resolves (imageResponse "BBBB"))
            = Fulfilled ["data:image/png;base64,BBBB"]
          ∨ generateImageFromText (Gemini.Resolves (imageResponse "BBBB"))
            = Fulfilled ["data:image/png;base64,BBBB"]) as H1
    by (left; reflexivity).
  split; [exact H1|].
  exact (proj1 (proj2 (image_operations_return_data_urls _ _ H1))).
Defined.

(** ** The vision tab *)

Section VisionFacts.
Context {host : Host}.

(** X19: the vision tab refuses to submit without an image or with an
    empty instruction: it sets its error text, makes no remote call and
    leaves the activity log and the rest of its state alone. The
    instruction is not trimmed, so one made of spaces only is not empty
    and the remote service is called with it. *)
Theorem vision_submit_validates (o : Gemini.Outcome) (v : Vision.t) (a : App) :
  (Vision.prompt v = "" ∨ Vision.imageFile v = None →
     Vision.handleSubmit o v a
     = (Vision.mk (Vision.prompt v) (Vision.imageFile v) (Vision.imageUrl v)
          (Vision.response v) (Vision.loading v) Vision.missingInput, a, []))
  ∧ (∀ file, Vision.prompt v ≠ "" → Vision.imageFile v = Some file →
       (Vision.handleSubmit o v a).2 = [(Vision.prompt v, file)]).
Proof.
  unfold Vision.handleSubmit. split.
  - intros [Hp|Hf].
    + rewrite Hp. by destruct (Vision.imageFile v).
    + by rewrite Hf.
  - intros file Hp ->. rewrite (bool_decide_false _ Hp).
    by destruct (generateTextFromImageAndText o).
Qed.

(** X20: what a submitted analysis leaves behind. With an image and a
    non-empty instruction, the spinner is off afterwards in every case.
    When the remote call rejects, the error text is the fixed message of
    the service, the response is cleared and the activity log is
    unchanged. When it resolves, the response is the text of the remote
    response, the error text is empty, and the activity log has exactly
    one new record in front, a vision record with the instruction as
    typed, the data URL of the image and that text. *)
Theorem vision_submit_outcomes (o : Gemini.Outcome) (v : Vision.t) (a : App)
    (file : File.t) :
  Vision.prompt v ≠ "" →
  Vision.imageFile v = Some file →
  Vision.loading (Vision.handleSubmit o v a).1.1 = false
  ∧ Vision.imageUrl (Vision.handleSubmit o v a).1.1 = Vision.imageUrl v
  ∧ match o with
    | Gemini.Rejects =>
        Vision.error (Vision.handleSubmit o v a).1.1 = analyzeFailure
        ∧ Vision.response (Vision.handleSubmit o v a).1.1 = Some ""
        ∧ (Vision.handleSubmit o v a).1.2 = a
    | Gemini.Resolves r =>
        Vision.error (Vision.handleSubmit o v a).1.1 = ""
        ∧ Vision.response (Vision.handleSubmit o v a).1.1 = Gemini.text r
        ∧ ∃ record,
            history (Vision.handleSubmit o v a).1.2 = record :: history a
            ∧ HistoryItem.type record = HistoryItem.vision
            ∧ HistoryItem.prompt record = Vision.prompt v
            ∧ HistoryItem.inputImages record = Some [fileToDataUrl file]
            ∧ HistoryItem.outputImages record = None
            ∧ HistoryItem.outputText record = Gemini.text r
    end.
Proof.
  intros Hp Hf. unfold Vision.handleSubmit. rewrite Hf, (bool_decide_false _ Hp).
  destruct o as [|r]; simpl; [done|].
  repeat split. eexists. repeat split.
Qed.

(** The URLs the browser has handed out so far. *)
Lemma created_snoc d :
  createObjectURL <$> seq 0 (S d) = (createObjectURL <$> seq 0 d) ++ [createObjectURL d].
Proof. by rewrite seq_S, fmap_app. Qed.

(** What every action of the vision tab maintains: the URLs revoked so
    far, together with the URL of the image on display, are the URLs
    created so far. *)
Lemma vision_step_balance (s : Vision.t * App * Browser) (op : Vision.Op) :
  Inj (=) (=) createObjectURL →
  (∀ n, createObjectURL n ≠ "") →
  revoked s.2 ++ option_list (Vision.imageUrl s.1.1)
    ≡ₚ createObjectURL <$> seq 0 (draws s.2) →
  revoked (Vision.step s op).2 ++ option_list (Vision.imageUrl (Vision.step s op).1.1)
    ≡ₚ createObjectURL <$> seq 0 (draws (Vision.step s op).2).
Proof.
  intros Hinj Hne Hinv. destruct s as [[v a] b]. simpl in Hinv.
  destruct op as [files| |o]; cbn -[seq].
  - destruct files as [|file rest]; cbn -[seq]; [done|].
    rewrite decide_False.
    + unfold Vision.cleanup. destruct (Vision.imageUrl v) as [u0|] eqn:Eu; cbn -[seq] in *.
      * assert (u0 ∈ createObjectURL <$> seq 0 (draws b)) as Hin.
        { rewrite <- Hinv. set_solver. }
        apply list_elem_of_fmap in Hin as (k & -> & _).
        rewrite (bool_decide_false _ (Hne k)). cbn -[seq].
        rewrite created_snoc, <- Hinv. done.
      * rewrite created_snoc, <- Hinv. by rewrite !app_nil_r.
    + intros Heq.
      assert (createObjectURL (draws b) ∈ createObjectURL <$> seq 0 (draws b)) as Hin.
      { rewrite <- Hinv, Heq. set_solver. }
      apply list_elem_of_fmap in Hin as (k & Hk & Hseq).
      apply Hinj in Hk. subst k. apply elem_of_seq in Hseq. lia.
  - unfold Vision.handleDownloadResponse. destruct (truthy (Vision.response v)); cbn -[seq]; [|done].
    rewrite created_snoc, <- Hinv, <- !app_assoc.
    apply Permutation_app_head, Permutation_app_comm.
  - assert (Vision.imageUrl (Vision.handleSubmit o v a).1.1 = Vision.imageUrl v) as ->; [|done].
    unfold Vision.handleSubmit. destruct (Vision.imageFile v); [|done].
    destruct (bool_decide _); [done|]. by destruct (generateTextFromImageAndText o).
Qed.

Lemma vision_run_balance (ops : list Vision.Op) (s : Vision.t * App * Browser) :
  Inj (=) (=) createObjectURL →
  (∀ n, createObjectURL n ≠ "") →
  revoked s.2 ++ option_list (Vision.imageUrl s.1.1)
    ≡ₚ createObjectURL <$> seq 0 (draws s.2) →
  revoked (Vision.runOps s ops).2
    ++ option_list (Vision.imageUrl (Vision.runOps s ops).1.1)
    ≡ₚ createObjectURL <$> seq 0 (draws (Vision.runOps s ops).2).
Proof.
  intros Hinj Hne. revert s. induction ops as [|op ops IH]; intros s Hs; [done|].
  unfold Vision.runOps. simpl. apply IH. by apply vision_step_balance.
Qed.

(** X21: the vision tab releases every display handle exactly once. If
    the browser hands out pairwise different, non-empty object URLs, then
    after any sequence of file choices, downloads and submissions on a
    freshly mounted tab, followed by unmounting, the revoked URLs are the
    created URLs, each one once. *)
Theorem vision_handles_released_once (a : App) (ops : list Vision.Op) :
  Inj (=) (=) createObjectURL →
  (∀ n, createObjectURL n ≠ "") →
  revoked (Vision.unmount (Vision.runOps (Vision.initial, a, initialBrowser) ops).1.1
             (Vision.runOps (Vision.initial, a, initialBrowser) ops).2)
    ≡ₚ createObjectURL
         <$> seq 0 (draws (Vision.runOps (Vision.initial, a, initialBrowser) ops).2)
  ∧ NoDup (revoked
             (Vision.unmount (Vision.runOps (Vision.initial, a, initialBrowser) ops).1.1
                (Vision.runOps (Vision.initial, a, initialBrowser) ops).2)).
Proof.
  intros Hinj Hne.
  pose proof (vision_run_balance ops (Vision.initial, a, initialBrowser) Hinj Hne) as Hinv.
  set (s := Vision.runOps (Vision.initial, a, initialBrowser) ops) in *.
  specialize (Hinv (reflexivity _)).
  assert (revoked (Vision.unmount s.1.1 s.2)
            ≡ₚ createObjectURL <$> seq 0 (draws s.2)) as Hperm.
  { unfold Vision.unmount, Vision.cleanup.
    destruct (Vision.imageUrl s.1.1) as [u0|] eqn:Eu; simpl in *.
    - assert (u0 ∈ createObjectURL <$> seq 0 (draws s.2)) as Hin.
      { rewrite <- Hinv. set_solver. }
      apply list_elem_of_fmap in Hin as (k & -> & _).
      by rewrite (bool_decide_false _ (Hne k)).
    - by rewrite app_nil_r in Hinv. }
  split; [done|]. rewrite Hperm. apply NoDup_fmap_2; [done | apply NoDup_seq].
Qed.

End VisionFacts.

Lemma vision_submit_outcomes_witness :
  let v := Vision.mk "What is this?" (Some (sampleFile "a.png" 10)) (Some "blob:0")
             (Some "") false "" in
  Vision.prompt v ≠ ""
  ∧ Vision.imageFile v = Some (sampleFile "a.png" 10)
  ∧ Vision.loading
      (Vision.handleSubmit (host := sampleHost) Gemini.Rejects v sampleApp).1.1 = false.
Proof.
  intros v.
  assert (Vision.prompt v ≠ "") as H1 by discriminate.
  assert (Vision.imageFile v = Some (sampleFile "a.png" 10)) as H2 by reflexivity.
  split; [exact H1|]. split; [exact H2|].
  exact (proj1 (vision_submit_outcomes (host := sampleHost) Gemini.Rejects v sampleApp
                  (sampleFile "a.png" 10) H1 H2)).
Defined.

Lemma sampleHost_urls_distinct : Inj (=) (=) (createObjectURL (Host := sampleHost)).
Proof. intros x y Heq. simpl in Heq. by apply (inj _), (inj pretty) in Heq. Qed.

Lemma sampleHost_urls_nonempty (n : nat) : createObjectURL (Host := sampleHost) n ≠ "".
Proof. done. Qed.

Lemma vision_handles_released_once_witness :
  Inj (=) (=) (createObjectURL (Host := sampleHost))
  ∧ (∀ n, createObjectURL (Host := sampleHost) n ≠ "")
  ∧ NoDup (revoked
      (Vision.unmount
         (Vision.runOps (host := sampleHost) (Vision.initial, sampleApp, initialBrowser)
            [Vision.ImageChange [sampleFile "a.png" 10];
             Vision.ImageChange [sampleFile "b.png" 20]]).1.1
         (Vision.runOps (host := sampleHost) (Vision.initial, sampleApp, initialBrowser)
            [Vision.ImageChange [sampleFile "a.png" 10];
             Vision.ImageChange [sampleFile "b.png" 20]]).2)).
Proof.
  split; [exact sampleHost_urls_distinct|]. split; [exact sampleHost_urls_nonempty|].
  exact (proj2 (vision_handles_released_once (host := sampleHost) sampleApp
                  [Vision.ImageChange [sampleFile "a.png" 10];
                   Vision.ImageChange [sampleFile "b.png" 20]]
                  sampleHost_urls_distinct sampleHost_urls_nonempty)).
Defined.

(** The vision tab on two successive file choices: the first handle is
    revoked when the second image replaces it, the second on unmounting. *)
Example vision_two_images :
  let s := Vision.runOps (host := sampleHost) (Vision.initial, sampleApp, initialBrowser)
             [Vision.ImageChange [sampleFile "a.png" 10];
              Vision.ImageChange [sampleFile "b.png" 20]] in
  revoked s.2 = ["blob:0"] ∧ revoked (Vision.unmount s.1.1 s.2) = ["blob:0"; "blob:1"].
Proof. vm_compute. done. Qed.

(** ** Relative times in the history tab *)

Lemma div_below (s len : Z) : (0 ≤ s < len)%Z → (1 <=? s / len)%Z = false.
Proof. intros Hs. rewrite Z.div_small by done. done. Qed.

Lemma div_above (s len : Z) : (0 < len ≤ s)%Z → (1 <=? s / len)%Z = true.
Proof.
  intros [Hl Hs]. apply Z.leb_le. apply Z.div_le_lower_bound; lia.
Qed.

Lemma pretty_N_go_head (x : N) (s : string) :
  (0 < x)%N → ∃ k t, pretty_N_go x s = String (pretty_N_char k) t.
Proof.
  revert s. induction (N.lt_wf_0 x) as [x _ IH]; intros s Hx.
  rewrite pretty_N_go_step by done.
  destruct (decide (x `div` 10 = 0)%N) as [Hz|Hnz].
  - rewrite Hz, pretty_N_go_0. eauto.
  - apply IH; [apply N.div_lt; lia | by apply N.neq_0_lt_0].
Qed.

(** The decimal text of a positive count starts with a digit, so no
    relative text reads "Just now". *)
Lemma relativeText_not_just_now (n : Z) (unit : string) :
  (1 ≤ n)%Z → relativeText n unit ≠ "Just now".
Proof.
  intros Hn. unfold relativeText. destruct n as [|q|q]; [lia| |lia].
  unfold pretty at 1, pretty_Z, pretty, pretty_positive, pretty, pretty_N.
  rewrite decide_False by done.
  destruct (pretty_N_go_head (N.pos q) "") as (k & t & ->); [lia|].
  change (String (pretty_N_char k) t +:+ ?r) with (String (pretty_N_char k) (t +:+ r)).
  intros [= Hc _]. unfold pretty_N_char in Hc. by repeat case_match.
Qed.

(** X22: [formatRelativeTime] answers "Just now" exactly for the records
    younger than one minute, which includes the records whose timestamp
    lies in the future. *)
Theorem just_now_iff_under_a_minute (now timestamp : Z) :
  formatRelativeTime now timestamp = "Just now" ↔ (now - timestamp < 60000)%Z.
Proof.
  unfold formatRelativeTime. set (s := ((now - timestamp) / 1000)%Z).
  assert (s < 60 ↔ now - timestamp < 60000)%Z as <-.
  { unfold s. split; intros H.
    - apply Z.nle_gt. intros Hge. apply Z.nle_gt in H. apply H.
      apply Z.div_le_lower_bound; lia.
    - apply Z.div_lt_upper_bound; lia. }
  destruct (s <? 30)%Z eqn:E30.
  { apply Z.ltb_lt in E30. split; [lia | done]. }
  apply Z.ltb_ge in E30. unfold intervals. cbn [firstInterval].
  destruct (decide (s < 60)%Z) as [Hlt|Hge].
  - rewrite !div_below by lia. done.
  - split; [|lia]. intros Heq. exfalso. revert Heq.
    repeat (match goal with
            | |- context [(1 <=? s / ?len)%Z] =>
                let E := fresh "E" in
                destruct (1 <=? s / len)%Z eqn:E;
                [apply relativeText_not_just_now; by apply Z.leb_le|]
            end).
    rewrite div_above in E3 by lia. done.
Qed.

(** X23: for a record of at least one minute, [formatRelativeTime] uses
    the largest unit that fits and the whole number of such units; so
    minutes are counted up to 59, hours up to 23, days up to 29 and months
    up to 12, and the unit is in the plural exactly when the count is
    above one. *)
Theorem relative_time_uses_largest_unit (now timestamp : Z) :
  (60000 ≤ now - timestamp)%Z →
  let s := ((now - timestamp) / 1000)%Z in
  ((31536000 ≤ s)%Z →
     formatRelativeTime now timestamp = relativeText (s / 31536000) "year"
     ∧ (1 ≤ s / 31536000)%Z)
  ∧ ((2592000 ≤ s < 31536000)%Z →
     formatRelativeTime now timestamp = relativeText (s / 2592000) "month"
     ∧ (1 ≤ s / 2592000 ≤ 12)%Z)
  ∧ ((86400 ≤ s < 2592000)%Z →
     formatRelativeTime now timestamp = relativeText (s / 86400) "day"
     ∧ (1 ≤ s / 86400 ≤ 29)%Z)
  ∧ ((3600 ≤ s < 86400)%Z →
     formatRelativeTime now timestamp = relativeText (s / 3600) "hour"
     ∧ (1 ≤ s / 3600 ≤ 23)%Z)
  ∧ ((60 ≤ s < 3600)%Z →
     formatRelativeTime now timestamp = relativeText (s / 60) "minute"
     ∧ (1 ≤ s / 60 ≤ 59)%Z).
Proof.
  intros Hold s.
  assert (60 ≤ s)%Z as Hs by (unfold s; apply Z.div_le_lower_bound; lia).
  unfold formatRelativeTime. fold s.
  assert ((s <? 30)%Z = false) as -> by (apply Z.ltb_ge; lia).
  unfold intervals. cbn [firstInterval].
  assert (∀ len hi, (0 < len)%Z → (len ≤ s < len * (hi + 1))%Z → (1 ≤ s / len ≤ hi)%Z) as Hb.
  { intros len hi Hl [H1 H2]. split.
    - apply Z.div_le_lower_bound; lia.
    - apply Z.lt_succ_r. apply Z.div_lt_upper_bound; lia. }
  repeat split.
  - rewrite div_above by lia. done.
  - apply Z.div_le_lower_bound; lia.
  - rewrite div_below, div_above by lia. done.
  - apply (Hb 2592000 12)%Z; lia.
  - apply (Hb 2592000 12)%Z; lia.
  - rewrite !div_below, div_above by lia. done.
  - apply (Hb 86400 29)%Z; lia.
  - apply (Hb 86400 29)%Z; lia.
  - rewrite !div_below, div_above by lia. done.
  - apply (Hb 3600 23)%Z; lia.
  - apply (Hb 3600 23)%Z; lia.
  - rewrite !div_below, div_above by lia. done.
  - apply (Hb 60 59)%Z; lia.
  - apply (Hb 60 59)%Z; lia.
Qed.

Lemma relative_time_uses_largest_unit_witness :
  (60000 ≤ 7200000 - 0)%Z
  ∧ formatRelativeTime 7200000 0 = relativeText (7200 / 3600) "hour".
Proof.
  assert (60000 ≤ 7200000 - 0)%Z as H1 by lia.
  split; [exact H1|].
  destruct (relative_time_uses_largest_unit 7200000 0 H1) as (_ & _ & _ & Hhour & _).
  apply Hhour. vm_compute. split; [discriminate | reflexivity].
Defined.

(** Some relative times, evaluated. *)
Example relative_times :
  formatRelativeTime 100000 55000 = "Just now"
  ∧ formatRelativeTime 100000 200000 = "Just now"
  ∧ formatRelativeTime 60000 0 = "1 minute ago"
  ∧ formatRelativeTime 7200000 0 = "2 hours ago"
  ∧ formatRelativeTime 31104000000 0 = "12 months ago"
  ∧ formatRelativeTime 31536000000 0 = "1 year ago".
Proof. vm_compute. repeat split. Qed.

(** ** No display handle leaks *)

Section NoLeak.
Context {host : Host}.

Lemma revokeAll_revoked imgs b :
  revoked (revokeAll imgs b) = revoked b ++ (UploadedImage.url <$> imgs).
Proof.
  unfold revokeAll. revert b. induction imgs as [|img imgs IH]; intros b; simpl.
  - by rewrite app_nil_r.
  - rewrite IH. simpl. by rewrite <- app_assoc.
Qed.

Lemma revokeAll_draws imgs b : draws (revokeAll imgs b) = draws b.
Proof.
  unfold revokeAll. revert b. induction imgs as [|img imgs IH]; intros b; simpl; [done|].
  by rewrite IH.
Qed.

(** A step never forgets a revocation. *)
Lemma step_revoked_grows s op u :
  u ∈ revoked s.2 → u ∈ revoked (step s op).2.
Proof.
  destruct s as [st b]. intros Hu. destruct op as [files|i| |i| |]; cbn [step fst snd]; try done.
  - unfold handleImagesChange. destruct (mintImages _ _); simpl; [done|].
    unfold effectCleanup. rewrite revokeAll_revoked. set_solver.
  - unfold handleRemoveImage, effectCleanup. cbn [snd]. rewrite revokeAll_revoked.
    apply elem_of_app. left.
    destruct (find _ _); simpl; [set_solver | done].
  - unfold handleClearAllImages, effectCleanup. cbn [snd].
    rewrite !revokeAll_revoked. set_solver.
Qed.

(** After a step, an item that was registered is still registered or its
    handle has been revoked. *)
Lemma step_keeps_or_revokes s op img :
  img ∈ uploadedImages s.1 →
  img ∈ uploadedImages (step s op).1 ∨ UploadedImage.url img ∈ revoked (step s op).2.
Proof.
  destruct s as [st b]. intros Hin. destruct op as [files|i| |i| |]; cbn [step fst snd];
    try (by left).
  - left. unfold handleImagesChange. destruct (mintImages _ _); simpl; [done|]. set_solver.
  - right. unfold handleRemoveImage, effectCleanup. cbn [snd]. rewrite revokeAll_revoked.
    apply elem_of_app. right. apply list_elem_of_fmap. by exists img.
  - right. unfold handleClearAllImages, effectCleanup. cbn [snd].
    rewrite !revokeAll_revoked. apply elem_of_app. right.
    apply list_elem_of_fmap. by exists img.
Qed.

Lemma runOps_keeps_or_revokes ops s img :
  img ∈ uploadedImages s.1 ∨ UploadedImage.url img ∈ revoked s.2 →
  img ∈ uploadedImages (runOps s ops).1
  ∨ UploadedImage.url img ∈ revoked (runOps s ops).2.
Proof.
  revert s. induction ops as [|op ops IH]; intros s Hs; [done|].
  unfold runOps. simpl. apply IH. destruct Hs as [Hin|Hrev].
  - by apply step_keeps_or_revokes.
  - right. by apply step_revoked_grows.
Qed.

(** X24: the registry leaks no display handle. Whatever operations
    follow, an item that is registered at some point has had its handle
    revoked by the time the component is unmounted, and already when it
    is no longer registered. *)
Theorem registry_handles_never_leak (s : EditTabState * Browser)
    (ops : list RegistryOp) (img : UploadedImage.t) :
  img ∈ uploadedImages s.1 →
  (img ∉ uploadedImages (runOps s ops).1 →
     UploadedImage.url img ∈ revoked (runOps s ops).2)
  ∧ UploadedImage.url img
      ∈ revoked (unmount (runOps s ops).1 (runOps s ops).2).
Proof.
  intros Hin.
  destruct (runOps_keeps_or_revokes ops s img (or_introl Hin)) as [Hstill|Hrev].
  - split; [done|]. unfold unmount, effectCleanup. rewrite revokeAll_revoked.
    apply elem_of_app. right. apply list_elem_of_fmap. by exists img.
  - split; [done|]. unfold unmount, effectCleanup. rewrite revokeAll_revoked.
    apply elem_of_app. by left.
Qed.

End NoLeak.

Lemma registry_handles_never_leak_witness :
  let s := (sampleTab, initialBrowser) in
  let img := UploadedImage.mk "uuid-2" (sampleFile "b.png" 20) "blob:3" in
  img ∈ uploadedImages s.1
  ∧ UploadedImage.url img
      ∈ revoked (unmount (runOps (host := sampleHost) s [RemoveItem "uuid-0"]).1
                   (runOps (host := sampleHost) s [RemoveItem "uuid-0"]).2).
Proof.
  intros s img.
  assert (img ∈ uploadedImages s.1) as H1 by (simpl; unfold sampleImages; repeat constructor).
  split; [exact H1|].
  exact (proj2 (registry_handles_never_leak (host := sampleHost) s
                  [RemoveItem "uuid-0"] img H1)).
Defined.

Lemma run_results_always_show_something_witness :
  trim (Host := sampleHost) (prompt (editTab sampleApp)) ≠ ""
  ∧ selectedImageIds (editTab sampleApp) ≠ ∅
  ∧ editResults (editTab (runSubmit (host := sampleHost) sampleRemote sampleApp)) !! "uuid-2"
    = Some (EditResult.mk "blob:3" [] None (Some editFailure))
  ∧ resultView (EditResult.mk "blob:3" [] None (Some editFailure)) = ErrorBox editFailure.
Proof.
  assert (trim (Host := sampleHost) (prompt (editTab sampleApp)) ≠ "") as H1
    by (vm_compute; discriminate).
  assert (selectedImageIds (editTab sampleApp) ≠ ∅) as H2.
  { intros Heq. apply (f_equal size) in Heq. vm_compute in Heq. discriminate. }
  assert (editResults (editTab (runSubmit (host := sampleHost) sampleRemote sampleApp))
            !! "uuid-2"
          = Some (EditResult.mk "blob:3" [] None (Some editFailure))) as H3
    by (vm_compute; reflexivity).
  split; [exact H1|]. split; [exact H2|]. split; [exact H3|].
  destruct (run_results_always_show_something (host := sampleHost) sampleRemote
              sampleApp "uuid-2" _ H1 H2 H3) as (_ & Herr & _).
  exact (proj2 (proj2 (Herr editFailure eq_refl))).
Defined.

Lemma submit_enabled_iff_run_starts_witness :
  loading sampleTab = false
  ∧ (canSubmit (host := sampleHost) sampleTab = true
     ↔ handleSubmit (host := sampleHost) sampleRemote sampleTab
       ≠ [SetError validationMessage]).
Proof.
  assert (loading sampleTab = false) as H1 by reflexivity.
  split; [exact H1|].
  exact (proj1 (submit_enabled_iff_run_starts (host := sampleHost) sampleRemote sampleTab H1)).
Defined.
